(** * Evaluator manager of the prediction module

    A shallow embedding of [modules/prediction/evaluator/evaluator_manager.cc]:
    the partition of obstacles over worker buckets, the per-obstacle choice of
    an evaluator, the resolution of the routes from the configuration, and the
    construction of the per-cycle history snapshot.

    Conventions of the embedding.
    - A C++ [int] is a [Z] inside [[int_min, int_max]]; arithmetic whose result
      leaves that range, and [%] by zero, have no defined behaviour and yield
      [Undefined].
    - [CHECK_NOTNULL] on a null pointer ends the process: [Fatal].
    - The container manager is a process-wide singleton; it yields a null
      pointer, [None], for an adapter that has no container registered.
    - The obstacles container owns one [Obstacle] object per id.
      [GetObstacle] yields the object, or [None] for [nullptr]; an
      [Obstacle*] kept in a bucket is represented by the id under which the
      container stores the object.
    - A [double] is only ever copied by this code; it is carried as its
      64-bit pattern.
    - The evaluators are external: their behaviour is a parameter of the
      development. *)

From Stdlib Require Import ZArith Lia String.
From stdpp Require Import gmap strings list fin_maps.

Local Open Scope Z_scope.

(** ** Outcomes of fallible code *)

Inductive result (A : Type) : Type :=
  | Ok (a : A)
  | Fatal
  | Undefined.
Arguments Ok {A} a.
Arguments Fatal {A}.
Arguments Undefined {A}.

#[global] Instance result_ret : MRet result := fun _ a => Ok a.
#[global] Instance result_bind : MBind result := fun _ _ f r =>
  match r with
  | Ok a => f a
  | Fatal => Fatal
  | Undefined => Undefined
  end.

(** ** Machine integers *)

Definition int_min : Z := - 2 ^ 31.
Definition int_max : Z := 2 ^ 31 - 1.

Definition in_int (z : Z) : bool := (int_min <=? z) && (z <=? int_max).

Definition int_add (a b : Z) : result Z :=
  if in_int (a + b) then Ok (a + b) else Undefined.

Definition int_sub (a b : Z) : result Z :=
  if in_int (a - b) then Ok (a - b) else Undefined.

(** [a % b]: the remainder of the division truncated towards zero, so its
    sign is the sign of [a]. *)
Definition int_rem (a b : Z) : result Z :=
  if b =? 0 then Undefined
  else if (a =? int_min) && (b =? -1) then Undefined
  else Ok (Z.rem a b).

(** A loop over a sequence whose body can fail. *)
Fixpoint for_each {A S : Type} (body : S -> A -> result S) (l : list A) (s : S)
    : result S :=
  match l with
  | [] => Ok s
  | a :: rest => s' ← body s a; for_each body rest s'
  end.

(** ** Enumerations of the protocol messages *)

Module ObstaclePriority.

Inductive Priority : Set := CAUTION | NORMAL | IGNORE.

#[global] Instance Priority_eq_dec : EqDecision Priority.
Proof. solve_decision. Defined.

End ObstaclePriority.

Module PerceptionObstacle.

(** The source names these four obstacle types. *)
Inductive Type_ : Set := UNKNOWN | PEDESTRIAN | BICYCLE | VEHICLE.

#[global] Instance Type_eq_dec : EqDecision Type_.
Proof. solve_decision. Defined.

End PerceptionObstacle.

Module ObstacleConf.

(** The source names [ON_LANE] and [IN_JUNCTION]; the other two statuses of
    the configuration schema are left untouched by [Init]. *)
Inductive ObstacleStatus : Set := ON_LANE | OFF_LANE | IN_JUNCTION | STATIONARY.

#[global] Instance ObstacleStatus_eq_dec : EqDecision ObstacleStatus.
Proof. solve_decision. Defined.

Inductive EvaluatorType : Set :=
  | MLP_EVALUATOR
  | RNN_EVALUATOR
  | COST_EVALUATOR
  | CRUISE_MLP_EVALUATOR
  | JUNCTION_MLP_EVALUATOR
  | CYCLIST_KEEP_LANE_EVALUATOR
  | LANE_SCANNING_EVALUATOR
  | PEDESTRIAN_INTERACTION_EVALUATOR
  | JUNCTION_MAP_EVALUATOR.

#[global] Instance EvaluatorType_eq_dec : EqDecision EvaluatorType.
Proof. solve_decision. Defined.

Definition EvaluatorType_to_nat (t : EvaluatorType) : nat :=
  match t with
  | MLP_EVALUATOR => 0
  | RNN_EVALUATOR => 1
  | COST_EVALUATOR => 2
  | CRUISE_MLP_EVALUATOR => 3
  | JUNCTION_MLP_EVALUATOR => 4
  | CYCLIST_KEEP_LANE_EVALUATOR => 5
  | LANE_SCANNING_EVALUATOR => 6
  | PEDESTRIAN_INTERACTION_EVALUATOR => 7
  | JUNCTION_MAP_EVALUATOR => 8
  end%nat.

Definition EvaluatorType_of_nat (n : nat) : option EvaluatorType :=
  match n with
  | 0 => Some MLP_EVALUATOR
  | 1 => Some RNN_EVALUATOR
  | 2 => Some COST_EVALUATOR
  | 3 => Some CRUISE_MLP_EVALUATOR
  | 4 => Some JUNCTION_MLP_EVALUATOR
  | 5 => Some CYCLIST_KEEP_LANE_EVALUATOR
  | 6 => Some LANE_SCANNING_EVALUATOR
  | 7 => Some PEDESTRIAN_INTERACTION_EVALUATOR
  | 8 => Some JUNCTION_MAP_EVALUATOR
  | _ => None
  end%nat.

#[global] Instance EvaluatorType_countable : Countable EvaluatorType :=
  inj_countable EvaluatorType_to_nat EvaluatorType_of_nat
    (fun t => match t as t0
                return EvaluatorType_of_nat (EvaluatorType_to_nat t0) = Some t0
              with
              | MLP_EVALUATOR => eq_refl
              | RNN_EVALUATOR => eq_refl
              | COST_EVALUATOR => eq_refl
              | CRUISE_MLP_EVALUATOR => eq_refl
              | JUNCTION_MLP_EVALUATOR => eq_refl
              | CYCLIST_KEEP_LANE_EVALUATOR => eq_refl
              | LANE_SCANNING_EVALUATOR => eq_refl
              | PEDESTRIAN_INTERACTION_EVALUATOR => eq_refl
              | JUNCTION_MAP_EVALUATOR => eq_refl
              end).

(** One entry of the configuration; every field is optional. *)
Record t : Set := mk {
  obstacle_type : option PerceptionObstacle.Type_;
  obstacle_status : option ObstacleStatus;
  evaluator_type : option EvaluatorType
}.

End ObstacleConf.

Import ObstaclePriority PerceptionObstacle ObstacleConf.

(** ** Messages and obstacles *)

Definition double : Set := Z.

Record Point3D : Set := mkPoint3D { px : double; py : double; pz : double }.

Module Feature.

Record t : Set := mk {
  id : Z;
  timestamp : double;
  position : Point3D;
  velocity_heading : double;
  theta : double;
  polygon_point : list Point3D;
  length : double;
  width : double;
  priority : Priority;
  is_still : bool;
  type : PerceptionObstacle.Type_
}.

(** A freshly constructed message: every field at the default of the
    message schema, which is declared outside this file. *)
Definition default : t :=
  {| id := 0; timestamp := 0; position := mkPoint3D 0 0 0;
     velocity_heading := 0; theta := 0; polygon_point := [];
     length := 0; width := 0; priority := NORMAL; is_still := false;
     type := UNKNOWN |}.

End Feature.

Module ObstacleHistory.

Record t : Set := mk {
  feature : list Feature.t;
  is_trainable : bool
}.

Definition default : t := {| feature := []; is_trainable := false |}.

End ObstacleHistory.

Module FrameEnv.

Record t : Set := mk {
  timestamp : option double;
  obstacles_history : list ObstacleHistory.t;
  ego_history : option ObstacleHistory.t
}.

Definition default : t :=
  {| timestamp := None; obstacles_history := []; ego_history := None |}.

End FrameEnv.

(** What the manager observes of an obstacle through its accessors.
    [feature_history] answers [feature(i)] and [history_size()]. *)
Record Obstacle : Set := mkObstacle {
  obstacle_id : Z;
  obstacle_type_ : PerceptionObstacle.Type_;
  IsStill : bool;
  IsOnLane : bool;
  HasJunctionFeatureWithExits : bool;
  IsCloseToJunctionExit : bool;
  feature_history : list Feature.t;
  latest_feature : Feature.t
}.

Definition history_size (o : Obstacle) : nat := List.length (feature_history o).

(** [obstacle->feature(i)]; the index must lie inside the history. *)
Definition feature (o : Obstacle) (i : nat) : result Feature.t :=
  match feature_history o !! i with
  | Some f => Ok f
  | None => Fatal
  end.

Definition ObstaclePtr : Set := Z.

Record ObstaclesContainer : Type := mkContainer {
  obstacles : gmap Z Obstacle;
  curr_frame_considered_obstacle_ids : list Z;
  curr_frame_movable_obstacle_ids : list Z;
  container_timestamp : double
}.

Definition GetObstacle (c : ObstaclesContainer) (obstacle_id : Z) : option Obstacle :=
  obstacles c !! obstacle_id.

(** The pose container of the localization adapter.  The manager only tests
    that it is registered and never reads it. *)
Inductive PoseContainer : Set := mkPoseContainer.

(** The container manager, a process-wide singleton in the source:
    [GetContainer<T>(AdapterConfig::X)] returns the container registered for
    the adapter [X], or a null pointer ([None]) when none is registered. *)
Record ContainerManager : Type := mkContainerManager {
  GetContainer_PERCEPTION_OBSTACLES : option ObstaclesContainer;
  GetContainer_LOCALIZATION : option PoseContainer
}.

(** ** Flags *)

Record Flags : Set := mkFlags {
  FLAGS_ego_vehicle_id : Z;
  FLAGS_max_thread_num : Z;
  FLAGS_max_caution_thread_num : Z;
  FLAGS_enable_multi_thread : bool;
  FLAGS_enable_semantic_map : bool;
  FLAGS_prediction_offline_mode : Z
}.

(** ** Trainable obstacles *)

Definition IsTrainable (flags : Flags) (feature : Feature.t) : bool :=
  if decide (Feature.id feature = FLAGS_ego_vehicle_id flags) then false
  else if bool_decide (Feature.priority feature = IGNORE)
          || Feature.is_still feature
          || negb (bool_decide (Feature.type feature = VEHICLE))
  then false
  else true.

(** ** Grouping obstacles by id *)

(** Appending [p] to the list stored under key [k], the entry being created
    empty when the key is new. *)
Definition push_back_at (k : Z) (p : ObstaclePtr)
    (m : gmap Z (list ObstaclePtr)) : gmap Z (list ObstaclePtr) :=
  <[k := (m !!! k) ++ [p]]> m.

Definition GroupObstaclesByObstacleId (flags : Flags) (obstacle_id : Z)
    (obstacles_container : ObstaclesContainer)
    (id_obstacle_map : gmap Z (list ObstaclePtr)) : result (gmap Z (list ObstaclePtr)) :=
  match GetObstacle obstacles_container obstacle_id with
  | None => Ok id_obstacle_map
  | Some obstacle =>
    if IsStill obstacle then Ok id_obstacle_map
    else
      let feature := latest_feature obstacle in
      match Feature.priority feature with
      | IGNORE => Ok id_obstacle_map
      | CAUTION =>
        id_mod ← int_rem obstacle_id (FLAGS_max_caution_thread_num flags);
        Ok (push_back_at id_mod obstacle_id id_obstacle_map)
      | _ =>
        normal_thread_num ←
          int_sub (FLAGS_max_thread_num flags) (FLAGS_max_caution_thread_num flags);
        r ← int_rem obstacle_id normal_thread_num;
        id_mod ← int_add r (FLAGS_max_caution_thread_num flags);
        Ok (push_back_at id_mod obstacle_id id_obstacle_map)
      end
  end.

(** The loop of [Run] that fills the map in multi-thread mode. *)
Definition group_all (flags : Flags) (c : ObstaclesContainer) (ids : list Z)
    : result (gmap Z (list ObstaclePtr)) :=
  for_each (fun m id => GroupObstaclesByObstacleId flags id c m) ids ∅.

(** ** The evaluator manager *)

(** The concrete evaluator classes built by [CreateEvaluator]. *)
Inductive Evaluator : Set :=
  | MLPEvaluator
  | CruiseMLPEvaluator
  | JunctionMLPEvaluator
  | RNNEvaluator
  | CostEvaluator
  | CyclistKeepLaneEvaluator
  | LaneScanningEvaluator
  | PedestrianInteractionEvaluator
  | JunctionMapEvaluator.

#[global] Instance Evaluator_eq_dec : EqDecision Evaluator.
Proof. solve_decision. Defined.

(** The members of the manager.  A registry entry can hold a null pointer. *)
Record EvaluatorManager : Type := mkManager {
  evaluators_ : gmap EvaluatorType (option Evaluator);
  vehicle_on_lane_evaluator_ : EvaluatorType;
  vehicle_in_junction_evaluator_ : EvaluatorType;
  cyclist_on_lane_evaluator_ : EvaluatorType;
  pedestrian_evaluator_ : EvaluatorType;
  default_on_lane_evaluator_ : EvaluatorType;
  obstacle_id_history_map_ : gmap Z ObstacleHistory.t
}.

Definition set_evaluators (f : gmap EvaluatorType (option Evaluator))
    (m : EvaluatorManager) : EvaluatorManager :=
  mkManager f (vehicle_on_lane_evaluator_ m) (vehicle_in_junction_evaluator_ m)
    (cyclist_on_lane_evaluator_ m) (pedestrian_evaluator_ m)
    (default_on_lane_evaluator_ m) (obstacle_id_history_map_ m).

Definition set_vehicle_on_lane (e : EvaluatorType) (m : EvaluatorManager)
    : EvaluatorManager :=
  mkManager (evaluators_ m) e (vehicle_in_junction_evaluator_ m)
    (cyclist_on_lane_evaluator_ m) (pedestrian_evaluator_ m)
    (default_on_lane_evaluator_ m) (obstacle_id_history_map_ m).

Definition set_vehicle_in_junction (e : EvaluatorType) (m : EvaluatorManager)
    : EvaluatorManager :=
  mkManager (evaluators_ m) (vehicle_on_lane_evaluator_ m) e
    (cyclist_on_lane_evaluator_ m) (pedestrian_evaluator_ m)
    (default_on_lane_evaluator_ m) (obstacle_id_history_map_ m).

Definition set_cyclist_on_lane (e : EvaluatorType) (m : EvaluatorManager)
    : EvaluatorManager :=
  mkManager (evaluators_ m) (vehicle_on_lane_evaluator_ m)
    (vehicle_in_junction_evaluator_ m) e (pedestrian_evaluator_ m)
    (default_on_lane_evaluator_ m) (obstacle_id_history_map_ m).

Definition set_pedestrian (e : EvaluatorType) (m : EvaluatorManager)
    : EvaluatorManager :=
  mkManager (evaluators_ m) (vehicle_on_lane_evaluator_ m)
    (vehicle_in_junction_evaluator_ m) (cyclist_on_lane_evaluator_ m) e
    (default_on_lane_evaluator_ m) (obstacle_id_history_map_ m).

Definition set_default_on_lane (e : EvaluatorType) (m : EvaluatorManager)
    : EvaluatorManager :=
  mkManager (evaluators_ m) (vehicle_on_lane_evaluator_ m)
    (vehicle_in_junction_evaluator_ m) (cyclist_on_lane_evaluator_ m)
    (pedestrian_evaluator_ m) e (obstacle_id_history_map_ m).

Definition set_history_map (h : gmap Z ObstacleHistory.t) (m : EvaluatorManager)
    : EvaluatorManager :=
  mkManager (evaluators_ m) (vehicle_on_lane_evaluator_ m)
    (vehicle_in_junction_evaluator_ m) (cyclist_on_lane_evaluator_ m)
    (pedestrian_evaluator_ m) (default_on_lane_evaluator_ m) h.

Definition CreateEvaluator (type : EvaluatorType) : option Evaluator :=
  match type with
  | MLP_EVALUATOR => Some MLPEvaluator
  | CRUISE_MLP_EVALUATOR => Some CruiseMLPEvaluator
  | JUNCTION_MLP_EVALUATOR => Some JunctionMLPEvaluator
  | RNN_EVALUATOR => Some RNNEvaluator
  | COST_EVALUATOR => Some CostEvaluator
  | CYCLIST_KEEP_LANE_EVALUATOR => Some CyclistKeepLaneEvaluator
  | LANE_SCANNING_EVALUATOR => Some LaneScanningEvaluator
  | PEDESTRIAN_INTERACTION_EVALUATOR => Some PedestrianInteractionEvaluator
  | JUNCTION_MAP_EVALUATOR => Some JunctionMapEvaluator
  end.

Definition RegisterEvaluator (type : EvaluatorType) (m : EvaluatorManager)
    : EvaluatorManager :=
  set_evaluators (<[type := CreateEvaluator type]> (evaluators_ m)) m.

Definition RegisterEvaluators (m : EvaluatorManager) : EvaluatorManager :=
  RegisterEvaluator JUNCTION_MAP_EVALUATOR
  (RegisterEvaluator PEDESTRIAN_INTERACTION_EVALUATOR
  (RegisterEvaluator LANE_SCANNING_EVALUATOR
  (RegisterEvaluator CYCLIST_KEEP_LANE_EVALUATOR
  (RegisterEvaluator JUNCTION_MLP_EVALUATOR
  (RegisterEvaluator CRUISE_MLP_EVALUATOR
  (RegisterEvaluator COST_EVALUATOR
  (RegisterEvaluator RNN_EVALUATOR
  (RegisterEvaluator MLP_EVALUATOR m)))))))).

(** [GetEvaluator]: the stored pointer, or null when the type has no entry. *)
Definition GetEvaluator (m : EvaluatorManager) (type : EvaluatorType)
    : option Evaluator :=
  match evaluators_ m !! type with
  | Some p => p
  | None => None
  end.

Definition CHECK_NOTNULL {A : Type} (p : option A) : result A :=
  match p with
  | Some a => Ok a
  | None => Fatal
  end.

(** ** Resolution of the routes from the configuration *)

Section Init.

(** A constant of [PredictionConstants], declared outside this file. *)
Variable kDumpDataForLearning : Z.

(** The body of the loop of [Init] for one configuration entry. *)
Definition Init_entry (flags : Flags) (m : EvaluatorManager)
    (obstacle_conf : ObstacleConf.t) : EvaluatorManager :=
  match ObstacleConf.obstacle_type obstacle_conf with
  | None => m
  | Some conf_type =>
    match ObstacleConf.evaluator_type obstacle_conf with
    | None => m
    | Some conf_evaluator =>
      match ObstacleConf.obstacle_status obstacle_conf with
      | None => m
      | Some conf_status =>
        match conf_type with
        | VEHICLE =>
          let m1 :=
            if decide (conf_status = ON_LANE) then
              let m0 := set_vehicle_on_lane conf_evaluator m in
              if decide (FLAGS_prediction_offline_mode flags = kDumpDataForLearning)
              then set_vehicle_on_lane LANE_SCANNING_EVALUATOR m0
              else m0
            else m in
          if decide (conf_status = IN_JUNCTION)
          then set_vehicle_in_junction conf_evaluator m1
          else m1
        | BICYCLE =>
          if decide (conf_status = ON_LANE)
          then set_cyclist_on_lane conf_evaluator m
          else m
        | PEDESTRIAN => set_pedestrian PEDESTRIAN_INTERACTION_EVALUATOR m
        | UNKNOWN =>
          if decide (conf_status = ON_LANE)
          then set_default_on_lane conf_evaluator m
          else m
        end
      end
    end
  end.

(** [Init]: the routes after the whole configuration has been read.  The
    start-up of the semantic map that follows the loop is external. *)
Definition Init (flags : Flags) (config : list ObstacleConf.t)
    (m : EvaluatorManager) : EvaluatorManager :=
  foldl (Init_entry flags) m config.

End Init.

(** ** The history snapshot *)

(** Shape of the ego vehicle, from the vehicle configuration. *)
Record VehicleParam : Set := mkVehicleParam {
  vehicle_length : double;
  vehicle_width : double
}.

(** The frame stored for one feature of the history. *)
Definition history_frame (flags : Flags) (vehicle_param : VehicleParam)
    (obstacle_feature : Feature.t) : Feature.t :=
  let feature := Feature.default in
  let feature :=
    Feature.mk (Feature.id obstacle_feature) (Feature.timestamp obstacle_feature)
      (Feature.position obstacle_feature) (Feature.velocity_heading feature)
      (Feature.velocity_heading obstacle_feature) (Feature.polygon_point feature)
      (Feature.length feature) (Feature.width feature) (Feature.priority feature)
      (Feature.is_still feature) (Feature.type feature) in
  if decide (Feature.id obstacle_feature ≠ FLAGS_ego_vehicle_id flags) then
    Feature.mk (Feature.id feature) (Feature.timestamp feature)
      (Feature.position feature) (Feature.velocity_heading feature)
      (Feature.theta feature) (Feature.polygon_point obstacle_feature)
      (Feature.length obstacle_feature) (Feature.width obstacle_feature)
      (Feature.priority feature) (Feature.is_still feature) (Feature.type feature)
  else
    Feature.mk (Feature.id feature) (Feature.timestamp feature)
      (Feature.position feature) (Feature.velocity_heading feature)
      (Feature.theta feature) (Feature.polygon_point feature)
      (vehicle_length vehicle_param) (vehicle_width vehicle_param)
      (Feature.priority feature) (Feature.is_still feature) (Feature.type feature).

(** [obstacle_id_history_map_[id]]: the record of [id], a fresh one when the
    key is new. *)
Definition history_at (h : gmap Z ObstacleHistory.t) (id : Z) : ObstacleHistory.t :=
  default ObstacleHistory.default (h !! id).

Definition add_feature (id : Z) (f : Feature.t) (h : gmap Z ObstacleHistory.t)
    : gmap Z ObstacleHistory.t :=
  let r := history_at h id in
  <[id := ObstacleHistory.mk (ObstacleHistory.feature r ++ [f])
            (ObstacleHistory.is_trainable r)]> h.

Definition set_is_trainable (id : Z) (b : bool) (h : gmap Z ObstacleHistory.t)
    : gmap Z ObstacleHistory.t :=
  let r := history_at h id in
  <[id := ObstacleHistory.mk (ObstacleHistory.feature r) b]> h.

(** The body of the loop of [BuildObstacleIdHistoryMap] for one id. *)
Definition build_history_body (flags : Flags) (vehicle_param : VehicleParam)
    (c : ObstaclesContainer) (h : gmap Z ObstacleHistory.t) (id : Z)
    : result (gmap Z ObstacleHistory.t) :=
  match GetObstacle c id with
  | None => Ok h
  | Some obstacle =>
    if (history_size obstacle =? 0)%nat then Ok h
    else
      let num_frames := Nat.min 10 (history_size obstacle) in
      h' ← for_each
             (fun h i =>
                obstacle_feature ← feature obstacle i;
                Ok (add_feature id (history_frame flags vehicle_param obstacle_feature) h))
             (seq 0 num_frames) h;
      Ok (set_is_trainable id (IsTrainable flags (latest_feature obstacle)) h')
  end.

(** [BuildObstacleIdHistoryMap]: the map is cleared, the obstacles container
    and the pose container are fetched and checked, and the movable ids
    followed by the ego id are walked. *)
Definition BuildObstacleIdHistoryMap (flags : Flags) (vehicle_param : VehicleParam)
    (containers : ContainerManager) (m : EvaluatorManager) : result EvaluatorManager :=
  obstacles_container ← CHECK_NOTNULL (GetContainer_PERCEPTION_OBSTACLES containers);
  ego_pose_container ← CHECK_NOTNULL (GetContainer_LOCALIZATION containers);
  let obstacle_ids :=
    curr_frame_movable_obstacle_ids obstacles_container ++ [FLAGS_ego_vehicle_id flags] in
  h ← for_each (build_history_body flags vehicle_param obstacles_container) obstacle_ids ∅;
  Ok (set_history_map h m).

(** [DumpCurrentFrameEnv]: the frame environment handed to the output sink.
    The map is walked in the order of its list of entries. *)
Definition DumpCurrentFrameEnv (flags : Flags) (c : ObstaclesContainer)
    (m : EvaluatorManager) : FrameEnv.t :=
  let curr_frame_env :=
    FrameEnv.mk (Some (container_timestamp c))
      (FrameEnv.obstacles_history FrameEnv.default)
      (FrameEnv.ego_history FrameEnv.default) in
  foldl
    (fun env (obstacle_id_history_pair : Z * ObstacleHistory.t) =>
       let id := obstacle_id_history_pair.1 in
       if decide (id ≠ FLAGS_ego_vehicle_id flags) then
         FrameEnv.mk (FrameEnv.timestamp env)
           (FrameEnv.obstacles_history env ++ [obstacle_id_history_pair.2])
           (FrameEnv.ego_history env)
       else
         FrameEnv.mk (FrameEnv.timestamp env) (FrameEnv.obstacles_history env)
           (Some obstacle_id_history_pair.2))
    curr_frame_env (map_to_list (obstacle_id_history_map_ m)).

(** ** Dispatch of one obstacle *)

(** One call of an evaluator: which instance, the neighbours handed to it
    when the two-argument overload is called, and the boolean it returned. *)
Record Invocation : Set := mkInvocation {
  inv_evaluator : Evaluator;
  inv_dynamic_env : option (list ObstaclePtr);
  inv_produced : bool
}.

Section Dispatch.

(** The evaluators: [Evaluate(obstacle)], [Evaluate(obstacle, dynamic_env)]
    and [GetName()].  A call may rewrite the obstacle it is given. *)
Variable Evaluate : Evaluator -> Obstacle -> Obstacle * bool.
Variable EvaluateEnv : Evaluator -> Obstacle -> list ObstaclePtr -> Obstacle * bool.
Variable GetName : Evaluator -> string.

(** [evaluator->Evaluate(obstacle)], the call being appended to the log. *)
Definition call (evaluator : Evaluator) (obstacle : Obstacle)
    (log : list Invocation) : Obstacle * bool * list Invocation :=
  let '(obstacle', produced) := Evaluate evaluator obstacle in
  (obstacle', produced, log ++ [mkInvocation evaluator None produced]).

(** [evaluator->Evaluate(obstacle, dynamic_env)], logged likewise. *)
Definition call_env (evaluator : Evaluator) (obstacle : Obstacle)
    (dynamic_env : list ObstaclePtr) (log : list Invocation)
    : Obstacle * bool * list Invocation :=
  let '(obstacle', produced) := EvaluateEnv evaluator obstacle dynamic_env in
  (obstacle', produced, log ++ [mkInvocation evaluator (Some dynamic_env) produced]).

Definition EvaluateObstacle (m : EvaluatorManager) (obstacle : Obstacle)
    (dynamic_env : list ObstaclePtr) : result (Obstacle * list Invocation) :=
  match obstacle_type_ obstacle with
  | VEHICLE =>
    if HasJunctionFeatureWithExits obstacle && negb (IsCloseToJunctionExit obstacle)
    then
      let in_junction (obstacle : Obstacle) (log : list Invocation) :=
        evaluator ← CHECK_NOTNULL (GetEvaluator m (vehicle_in_junction_evaluator_ m));
        let '(obstacle', _, log') := call evaluator obstacle log in
        Ok (obstacle', log') in
      if decide (Feature.priority (latest_feature obstacle) = CAUTION) then
        evaluator ← CHECK_NOTNULL (GetEvaluator m JUNCTION_MAP_EVALUATOR);
        let '(obstacle', produced, log) := call evaluator obstacle [] in
        if produced then Ok (obstacle', log)
        else in_junction obstacle' log
      else in_junction obstacle []
    else if IsOnLane obstacle then
      evaluator ← CHECK_NOTNULL (GetEvaluator m (vehicle_on_lane_evaluator_ m));
      if String.eqb (GetName evaluator) "LANE_SCANNING_EVALUATOR" then
        let '(obstacle', _, log) := call_env evaluator obstacle dynamic_env [] in
        Ok (obstacle', log)
      else
        let '(obstacle', _, log) := call evaluator obstacle [] in
        Ok (obstacle', log)
    else Ok (obstacle, [])
  | BICYCLE =>
    if IsOnLane obstacle then
      evaluator ← CHECK_NOTNULL (GetEvaluator m (cyclist_on_lane_evaluator_ m));
      let '(obstacle', _, log) := call evaluator obstacle [] in
      Ok (obstacle', log)
    else Ok (obstacle, [])
  | _ =>
    if IsOnLane obstacle then
      evaluator ← CHECK_NOTNULL (GetEvaluator m (default_on_lane_evaluator_ m));
      let '(obstacle', _, log) := call evaluator obstacle [] in
      Ok (obstacle', log)
    else Ok (obstacle, [])
  end.

(** The routes whose evaluator a dispatch asks the registry for, in order. *)
Definition routes_consulted (m : EvaluatorManager) (o : Obstacle) : list EvaluatorType :=
  match obstacle_type_ o with
  | VEHICLE =>
    if HasJunctionFeatureWithExits o && negb (IsCloseToJunctionExit o) then
      if decide (Feature.priority (latest_feature o) = CAUTION) then
        match GetEvaluator m JUNCTION_MAP_EVALUATOR with
        | Some e =>
          if (Evaluate e o).2 then [JUNCTION_MAP_EVALUATOR]
          else [JUNCTION_MAP_EVALUATOR; vehicle_in_junction_evaluator_ m]
        | None => [JUNCTION_MAP_EVALUATOR]
        end
      else [vehicle_in_junction_evaluator_ m]
    else if IsOnLane o then [vehicle_on_lane_evaluator_ m]
    else []
  | BICYCLE => if IsOnLane o then [cyclist_on_lane_evaluator_ m] else []
  | _ => if IsOnLane o then [default_on_lane_evaluator_ m] else []
  end.

(** ** The cycle *)

(** One obstacle handled by [Run]: the worker bucket it ran in ([None] in
    single-thread mode), the obstacle, and the evaluator calls made on it. *)
Record Dispatched : Set := mkDispatched {
  d_worker : option Z;
  d_obstacle : ObstaclePtr;
  d_invocations : list Invocation
}.

(** The obstacles as the evaluators leave them, and the dispatches so far. *)
Definition RunState : Type := gmap Z Obstacle * list Dispatched.

(** [EvaluateObstacle(obstacle_ptr, dynamic_env)] on the current state of the
    obstacle behind the pointer. *)
Definition evaluate_ptr (m : EvaluatorManager) (worker : option Z)
    (dynamic_env : list ObstaclePtr) (st : RunState) (p : ObstaclePtr)
    : result RunState :=
  match st.1 !! p with
  | None => Undefined
  | Some obstacle =>
    '(obstacle', log) ← EvaluateObstacle m obstacle dynamic_env;
    Ok (<[p := obstacle']> st.1, st.2 ++ [mkDispatched worker p log])
  end.

(** The single-thread loop of [Run]. *)
Definition run_single_body (m : EvaluatorManager)
    (dynamic_env : list ObstaclePtr) (st : RunState) (id : Z) : result RunState :=
  if id <? 0 then Ok st
  else
    match st.1 !! id with
    | None => Ok st
    | Some obstacle =>
      if IsStill obstacle then Ok st
      else evaluate_ptr m None dynamic_env st id
    end.

(** The worker of one bucket: its obstacles, one after the other. *)
Definition run_bucket (m : EvaluatorManager) (dynamic_env : list ObstaclePtr)
    (st : RunState) (bucket : Z * list ObstaclePtr) : result RunState :=
  for_each (evaluate_ptr m (Some bucket.1) dynamic_env) bucket.2 st.

(** [PredictionThreadPool::ForEach] over the buckets.  A worker touches the
    obstacles of its own bucket only, so the buckets are run one after the
    other here; the order among buckets carries no meaning. *)
Definition ForEach_buckets (m : EvaluatorManager) (dynamic_env : list ObstaclePtr)
    (id_obstacle_map : gmap Z (list ObstaclePtr)) (st : RunState) : result RunState :=
  for_each (run_bucket m dynamic_env) (map_to_list id_obstacle_map) st.

(** The dispatching part of [Run], after the snapshot has been dealt with. *)
Definition Run_dispatch (flags : Flags) (m : EvaluatorManager)
    (c : ObstaclesContainer) : result RunState :=
  let dynamic_env : list ObstaclePtr := [] in
  if FLAGS_enable_multi_thread flags then
    id_obstacle_map ← group_all flags c (curr_frame_considered_obstacle_ids c);
    ForEach_buckets m dynamic_env id_obstacle_map (obstacles c, [])
  else
    for_each (run_single_body m dynamic_env)
      (curr_frame_considered_obstacle_ids c) (obstacles c, []).

(** ** [Run] *)

Variable kDumpFrameEnv : Z.

(** What one cycle leaves behind: the manager, the frame environment given
    to the output sink and the history map given to the semantic map (when
    the snapshot was taken), the obstacles and the dispatches. *)
Record RunOutput : Type := mkRunOutput {
  out_manager : EvaluatorManager;
  out_frame_env : option FrameEnv.t;
  out_semantic_map : option (gmap Z ObstacleHistory.t);
  out_obstacles : gmap Z Obstacle;
  out_dispatched : list Dispatched
}.

(** [Run]: the obstacles container is fetched and checked first.
    [DumpCurrentFrameEnv] fetches it again without a check; it is called
    after the checks of [Run] and of [BuildObstacleIdHistoryMap] passed, on
    the same container. *)
Definition Run (flags : Flags) (vehicle_param : VehicleParam)
    (containers : ContainerManager) (m : EvaluatorManager) : result RunOutput :=
  obstacles_container ← CHECK_NOTNULL (GetContainer_PERCEPTION_OBSTACLES containers);
  if FLAGS_enable_semantic_map flags
     || bool_decide (FLAGS_prediction_offline_mode flags = kDumpFrameEnv)
  then
    m' ← BuildObstacleIdHistoryMap flags vehicle_param containers m;
    let env := DumpCurrentFrameEnv flags obstacles_container m' in
    if decide (FLAGS_prediction_offline_mode flags = kDumpFrameEnv) then
      Ok (mkRunOutput m' (Some env) None (obstacles obstacles_container) [])
    else
      st ← Run_dispatch flags m' obstacles_container;
      Ok (mkRunOutput m' (Some env) (Some (obstacle_id_history_map_ m')) st.1 st.2)
  else
    st ← Run_dispatch flags m obstacles_container;
    Ok (mkRunOutput m None None st.1 st.2).

End Dispatch.

(** ** Notions used by the statements *)

(** The priority under which an id enters the partition: [None] when the
    obstacle is absent, still, or of priority [IGNORE]. *)
Definition partition_key (c : ObstaclesContainer) (id : Z) : option Priority :=
  match GetObstacle c id with
  | None => None
  | Some obstacle =>
    if IsStill obstacle then None
    else match Feature.priority (latest_feature obstacle) with
         | IGNORE => None
         | p => Some p
         end
  end.

(** The key computed by [GroupObstaclesByObstacleId] for an id of the given
    priority, when the arithmetic is defined. *)
Definition bucket_of (flags : Flags) (id : Z) (p : Priority) : Z :=
  match p with
  | CAUTION => Z.rem id (FLAGS_max_caution_thread_num flags)
  | _ => Z.rem id (FLAGS_max_thread_num flags - FLAGS_max_caution_thread_num flags)
         + FLAGS_max_caution_thread_num flags
  end.

(** The same key with the arithmetic checked, as the code computes it. *)
Definition bucket_checked (flags : Flags) (id : Z) (p : Priority) : result Z :=
  match p with
  | CAUTION => int_rem id (FLAGS_max_caution_thread_num flags)
  | _ =>
    normal_thread_num ←
      int_sub (FLAGS_max_thread_num flags) (FLAGS_max_caution_thread_num flags);
    r ← int_rem id normal_thread_num;
    int_add r (FLAGS_max_caution_thread_num flags)
  end.

(** The slot counts for which the arithmetic of the grouping is defined:
    at least one caution slot, at least one normal slot, all within [int]. *)
Definition slots_ok (flags : Flags) : Prop :=
  0 < FLAGS_max_caution_thread_num flags
  ∧ FLAGS_max_caution_thread_num flags < FLAGS_max_thread_num flags
  ∧ FLAGS_max_thread_num flags <= int_max.

(** A manager as its constructor leaves it: every evaluator registered.  The
    five routes start from the initialisers of the class declaration, which
    lies outside this file. *)
Definition new_EvaluatorManager
    (on_lane in_junction cyclist pedestrian default_ : EvaluatorType)
    : EvaluatorManager :=
  RegisterEvaluators
    (mkManager ∅ on_lane in_junction cyclist pedestrian default_ ∅).

(** The step of the grouping loop, without the arithmetic checks. *)
Definition group_step (flags : Flags) (c : ObstaclesContainer)
    (m : gmap Z (list ObstaclePtr)) (id : Z) : gmap Z (list ObstaclePtr) :=
  match partition_key c id with
  | None => m
  | Some p => push_back_at (bucket_of flags id p) id m
  end.

(** The step of the loop of [BuildObstacleIdHistoryMap] as one update of the
    record of the id. *)
Definition build_step (flags : Flags) (vehicle_param : VehicleParam)
    (c : ObstaclesContainer) (h : gmap Z ObstacleHistory.t) (id : Z)
    : gmap Z ObstacleHistory.t :=
  match GetObstacle c id with
  | None => h
  | Some obstacle =>
    if (history_size obstacle =? 0)%nat then h
    else
      <[id := ObstacleHistory.mk
                (ObstacleHistory.feature (history_at h id)
                 ++ map (history_frame flags vehicle_param)
                      (take (Nat.min 10 (history_size obstacle))
                         (feature_history obstacle)))
                (IsTrainable flags (latest_feature obstacle))]> h
  end.

(** What holds of every record of the map, whatever the list of ids. *)
Definition record_from (flags : Flags) (c : ObstaclesContainer) (id : Z)
    (r : ObstacleHistory.t) : Prop :=
  ∃ o, GetObstacle c id = Some o
       ∧ history_size o ≠ 0%nat
       ∧ ObstacleHistory.is_trainable r = IsTrainable flags (latest_feature o).

(** The ids that the single-thread loop of [Run] hands to the dispatch: not
    negative, with an obstacle that is not still. *)
Definition single_thread_keeps (c : ObstaclesContainer) (id : Z) : bool :=
  (0 <=? id)
  && match GetObstacle c id with
     | Some obstacle => negb (IsStill obstacle)
     | None => false
     end.

(** An entry that sets the vehicle-on-lane route. *)
Definition sets_vehicle_on_lane (conf : ObstacleConf.t) : bool :=
  bool_decide (ObstacleConf.obstacle_type conf = Some VEHICLE)
  && bool_decide (ObstacleConf.obstacle_status conf = Some ON_LANE)
  && bool_decide (is_Some (ObstacleConf.evaluator_type conf)).

(** ** Sample data *)

Definition sample_feature (id : Z) (p : Priority) (ty : PerceptionObstacle.Type_)
    : Feature.t :=
  Feature.mk id 0 (mkPoint3D 0 0 0) 0 0 [] 0 0 p false ty.

(** A moving obstacle with [frames] stored frames. *)
Definition sample_obstacle (id : Z) (p : Priority) (ty : PerceptionObstacle.Type_)
    (on_lane junction near_exit : bool) (frames : nat) : Obstacle :=
  mkObstacle id ty false on_lane junction near_exit
    (replicate frames (sample_feature id p ty)) (sample_feature id p ty).

(** Ego id -1, four worker slots of which [caution] are kept for CAUTION. *)
Definition sample_flags (caution : Z) (multi_thread : bool) : Flags :=
  mkFlags (-1) 4 caution multi_thread false 0.

Definition sample_manager : EvaluatorManager :=
  new_EvaluatorManager CRUISE_MLP_EVALUATOR JUNCTION_MLP_EVALUATOR
    CYCLIST_KEEP_LANE_EVALUATOR PEDESTRIAN_INTERACTION_EVALUATOR MLP_EVALUATOR.

(** A manager whose registry was never filled. *)
Definition unregistered_manager : EvaluatorManager :=
  mkManager ∅ CRUISE_MLP_EVALUATOR JUNCTION_MLP_EVALUATOR
    CYCLIST_KEEP_LANE_EVALUATOR PEDESTRIAN_INTERACTION_EVALUATOR MLP_EVALUATOR ∅.

(** Evaluators that leave the obstacle as it is; the junction-map evaluator
    declines, every other evaluator produces. *)
Definition sample_Evaluate (e : Evaluator) (o : Obstacle) : Obstacle * bool :=
  (o, negb (bool_decide (e = JunctionMapEvaluator))).

Definition sample_EvaluateEnv (e : Evaluator) (o : Obstacle) (env : list ObstaclePtr)
    : Obstacle * bool :=
  (o, true).

Definition sample_GetName (e : Evaluator) : string :=
  match e with
  | LaneScanningEvaluator => "LANE_SCANNING_EVALUATOR"
  | _ => "EVALUATOR"
  end.

(** The four obstacles of the end-to-end scenario: a CAUTION vehicle on lane,
    a NORMAL vehicle in a junction far from the exit, a pedestrian on lane,
    and a vehicle of priority IGNORE. *)
Definition sample_container : ObstaclesContainer :=
  mkContainer
    (<[1 := sample_obstacle 1 CAUTION VEHICLE true false false 3]>
     (<[2 := sample_obstacle 2 NORMAL VEHICLE false true false 12]>
      (<[3 := sample_obstacle 3 NORMAL PEDESTRIAN true false false 1]>
       (<[4 := sample_obstacle 4 IGNORE VEHICLE true false false 2]> ∅))))
    [1; 2; 3; 4] [1; 2; 3; 4] 0.

(** One moving vehicle on lane, of priority IGNORE, under id 4. *)
Definition ignored_container : ObstaclesContainer :=
  mkContainer (<[4 := sample_obstacle 4 IGNORE VEHICLE true false false 2]> ∅)
    [4] [4] 0.

(** One moving vehicle on lane, considered under the negative id -1. *)
Definition negative_container (p : Priority) : ObstaclesContainer :=
  mkContainer (<[-1 := sample_obstacle (-1) p VEHICLE true false false 2]> ∅)
    [-1] [] 0.

(** The ego vehicle, with twelve features, reported among the movable ids
    under the ego id -1. *)
Definition ego_listed_container : ObstaclesContainer :=
  mkContainer (<[-1 := sample_obstacle (-1) NORMAL VEHICLE true false false 12]> ∅)
    [-1] [-1] 0.

(** A container manager with both containers registered. *)
Definition registered_containers (c : ObstaclesContainer) : ContainerManager :=
  mkContainerManager (Some c) (Some mkPoseContainer).

(** A container manager without the pose container. *)
Definition no_pose_containers (c : ObstaclesContainer) : ContainerManager :=
  mkContainerManager (Some c) None.

(** ** Further notions *)

(** An entry of the configuration that [Init] acts upon: the three fields
    are present and the pair of type and status is one of those the switch
    handles. *)
Definition effective_entry (conf : ObstacleConf.t) : bool :=
  match ObstacleConf.obstacle_type conf, ObstacleConf.evaluator_type conf,
        ObstacleConf.obstacle_status conf with
  | Some VEHICLE, Some _, Some ON_LANE => true
  | Some VEHICLE, Some _, Some IN_JUNCTION => true
  | Some BICYCLE, Some _, Some ON_LANE => true
  | Some PEDESTRIAN, Some _, Some _ => true
  | Some UNKNOWN, Some _, Some ON_LANE => true
  | _, _, _ => false
  end.

(** The evaluator named by the last entry of the configuration for the given
    obstacle type and status, if there is one. *)
Definition last_declared (ty : PerceptionObstacle.Type_) (status : ObstacleStatus)
    (config : list ObstacleConf.t) : option EvaluatorType :=
  foldl
    (fun acc conf =>
       if bool_decide (ObstacleConf.obstacle_type conf = Some ty)
          && bool_decide (ObstacleConf.obstacle_status conf = Some status)
       then match ObstacleConf.evaluator_type conf with
            | Some e => Some e
            | None => acc
            end
       else acc)
    None config.

(** An entry for pedestrians with its three fields present. *)
Definition declares_pedestrian (conf : ObstacleConf.t) : bool :=
  bool_decide (ObstacleConf.obstacle_type conf = Some PEDESTRIAN)
  && bool_decide (is_Some (ObstacleConf.obstacle_status conf))
  && bool_decide (is_Some (ObstacleConf.evaluator_type conf)).

(** Whether an id enters the partition, and whether it does under key [b]. *)
Definition enters (c : ObstaclesContainer) (id : Z) : bool :=
  bool_decide (is_Some (partition_key c id)).

Definition enters_bucket (flags : Flags) (c : ObstaclesContainer) (b : Z) (id : Z)
    : bool :=
  match partition_key c id with
  | Some q => bool_decide (bucket_of flags id q = b)
  | None => false
  end.

(** The scenario without its IGNORE obstacle. *)
Definition moving_container : ObstaclesContainer :=
  mkContainer
    (<[1 := sample_obstacle 1 CAUTION VEHICLE true false false 3]>
     (<[2 := sample_obstacle 2 NORMAL VEHICLE false true false 12]>
      (<[3 := sample_obstacle 3 NORMAL PEDESTRIAN true false false 1]> ∅)))
    [1; 2; 3] [1; 2; 3] 0.

(** The frames stored by one visit of an obstacle: one per feature among
    its first ten. *)
Definition frames_of (flags : Flags) (vehicle_param : VehicleParam) (o : Obstacle)
    : list Feature.t :=
  map (history_frame flags vehicle_param) (take 10 (feature_history o)).

(** The ids walked by [BuildObstacleIdHistoryMap]. *)
Definition history_ids (flags : Flags) (c : ObstaclesContainer) : list Z :=
  curr_frame_movable_obstacle_ids c ++ [FLAGS_ego_vehicle_id flags].

(** The body of the loop of [DumpCurrentFrameEnv]. *)
Definition dump_step (ego : Z) (env : FrameEnv.t) (pr : Z * ObstacleHistory.t)
    : FrameEnv.t :=
  if decide (pr.1 ≠ ego) then
    FrameEnv.mk (FrameEnv.timestamp env)
      (FrameEnv.obstacles_history env ++ [pr.2]) (FrameEnv.ego_history env)
  else
    FrameEnv.mk (FrameEnv.timestamp env) (FrameEnv.obstacles_history env)
      (Some pr.2).

(** [EvaluateObstacle(obstacle)]: the dispatch with an empty list of
    neighbours. *)
Definition EvaluateObstacle_1
    (Evaluate : Evaluator -> Obstacle -> Obstacle * bool)
    (EvaluateEnv : Evaluator -> Obstacle -> list ObstaclePtr -> Obstacle * bool)
    (GetName : Evaluator -> string)
    (m : EvaluatorManager) (obstacle : Obstacle) : result (Obstacle * list Invocation) :=
  let dummy_dynamic_env : list ObstaclePtr := [] in
  EvaluateObstacle Evaluate EvaluateEnv GetName m obstacle dummy_dynamic_env.

(** A record of [Run] whose calls are the outcome of a dispatch with no
    neighbours. *)
Definition from_dispatch
    (Evaluate : Evaluator -> Obstacle -> Obstacle * bool)
    (EvaluateEnv : Evaluator -> Obstacle -> list ObstaclePtr -> Obstacle * bool)
    (GetName : Evaluator -> string)
    (m : EvaluatorManager) (d : Dispatched) : Prop :=
  ∃ o o', EvaluateObstacle Evaluate EvaluateEnv GetName m o [] = Ok (o', d_invocations d).

(** * Properties *)

(** ** Loops *)

Lemma bind_Ok {A B : Type} (a : A) (f : A -> result B) : (Ok a ≫= f) = f a.
Proof. reflexivity. Qed.

Lemma for_each_cons {A S : Type} (body : S -> A -> result S) (a : A) (l : list A) (s : S) :
  for_each body (a :: l) s = (body s a ≫= for_each body l).
Proof. reflexivity. Qed.

(** A loop whose body always succeeds is a left fold. *)
Lemma for_each_total {A S : Type} (body : S -> A -> result S) (step : S -> A -> S)
    (l : list A) (s : S) :
  (∀ s a, a ∈ l -> body s a = Ok (step s a)) ->
  for_each body l s = Ok (foldl step s l).
Proof.
  revert s. induction l as [|a l IH]; intros s H; simpl; [done|].
  rewrite H by left. simpl. apply IH. intros s' a' Ha'. apply H. by right.
Qed.

(** A successful loop whose body, when it succeeds, acts as [step]. *)
Lemma for_each_fold {A S : Type} (body : S -> A -> result S) (step : S -> A -> S)
    (l : list A) (s s' : S) :
  (∀ s a s', body s a = Ok s' -> s' = step s a) ->
  for_each body l s = Ok s' -> s' = foldl step s l.
Proof.
  intros H. revert s. induction l as [|a l IH]; intros s; simpl.
  - congruence.
  - destruct (body s a) as [s1| |] eqn:E; try done. rewrite bind_Ok.
    apply H in E as ->. apply IH.
Qed.

Lemma for_each_ext {A S : Type} (body1 body2 : S -> A -> result S) (l : list A) (s : S) :
  (∀ s a, a ∈ l -> body1 s a = body2 s a) ->
  for_each body1 l s = for_each body2 l s.
Proof.
  revert s. induction l as [|a l IH]; intros s H; simpl; [done|].
  rewrite H by left. destruct (body2 s a) as [s1| |]; try done.
  rewrite !bind_Ok. apply IH. intros s' a' Ha'. apply H. by right.
Qed.

(** ** Machine integers *)

Lemma in_int_true (z : Z) : int_min <= z <= int_max -> in_int z = true.
Proof. unfold in_int. intros [H1 H2]. apply andb_true_iff. split; lia. Qed.

Lemma int_rem_pos (a b : Z) : 0 < b -> int_rem a b = Ok (Z.rem a b).
Proof.
  intros Hb. unfold int_rem.
  destruct (Z.eqb_spec b 0); [lia|].
  destruct (Z.eqb_spec b (-1)); [lia|].
  by rewrite andb_false_r.
Qed.

Lemma rem_abs_lt (a b : Z) : 0 < b -> - b < Z.rem a b < b.
Proof.
  intros Hb. pose proof (Z.rem_bound_abs a b ltac:(lia)) as H. lia.
Qed.

Lemma rem_nonneg_range (a b : Z) : 0 <= a -> 0 < b -> 0 <= Z.rem a b < b.
Proof. intros Ha Hb. apply Z.rem_bound_pos; lia. Qed.

Lemma int_add_Ok a b r : int_add a b = Ok r -> r = a + b.
Proof. unfold int_add. destruct (in_int (a + b)); congruence. Qed.

Lemma int_sub_Ok a b r : int_sub a b = Ok r -> r = a - b.
Proof. unfold int_sub. destruct (in_int (a - b)); congruence. Qed.

Lemma int_rem_Ok a b r : int_rem a b = Ok r -> r = Z.rem a b.
Proof.
  unfold int_rem. destruct (b =? 0); [done|].
  destruct ((a =? int_min) && (b =? -1)); congruence.
Qed.

(** ** Grouping *)

(** The code depends on the container through [partition_key] only. *)
Lemma GroupObstaclesByObstacleId_by_key flags c id m :
  GroupObstaclesByObstacleId flags id c m
  = match partition_key c id with
    | None => Ok m
    | Some p => b ← bucket_checked flags id p; Ok (push_back_at b id m)
    end.
Proof.
  unfold GroupObstaclesByObstacleId, partition_key, bucket_checked.
  destruct (GetObstacle c id) as [o|]; [|done].
  destruct (IsStill o); [done|].
  destruct (Feature.priority (latest_feature o)); try done.
  destruct (int_sub _ _) as [n| |]; try done. simpl.
  destruct (int_rem id n) as [r| |]; done.
Qed.

Lemma bucket_checked_Ok flags id p b :
  bucket_checked flags id p = Ok b -> b = bucket_of flags id p.
Proof.
  unfold bucket_checked, bucket_of.
  assert (int_sub (FLAGS_max_thread_num flags) (FLAGS_max_caution_thread_num flags)
          ≫= (fun n => int_rem id n
                       ≫= fun r => int_add r (FLAGS_max_caution_thread_num flags))
          = Ok b ->
          b = Z.rem id (FLAGS_max_thread_num flags - FLAGS_max_caution_thread_num flags)
              + FLAGS_max_caution_thread_num flags) as Hnormal.
  { destruct (int_sub _ _) as [n| |] eqn:En; try done. rewrite bind_Ok.
    destruct (int_rem id n) as [r| |] eqn:Er; try done. rewrite bind_Ok.
    intros Ha. apply int_add_Ok in Ha. apply int_rem_Ok in Er.
    apply int_sub_Ok in En. by subst. }
  destruct p; [apply int_rem_Ok | exact Hnormal | exact Hnormal].
Qed.

Lemma bucket_checked_defined flags id p :
  slots_ok flags -> bucket_checked flags id p = Ok (bucket_of flags id p).
Proof.
  intros (Hc & Hn & Hmax). unfold bucket_checked, bucket_of.
  assert (int_sub (FLAGS_max_thread_num flags) (FLAGS_max_caution_thread_num flags)
          ≫= (fun n => int_rem id n
                       ≫= fun r => int_add r (FLAGS_max_caution_thread_num flags))
          = Ok (Z.rem id (FLAGS_max_thread_num flags - FLAGS_max_caution_thread_num flags)
                + FLAGS_max_caution_thread_num flags)) as Hnormal.
  { unfold int_sub. rewrite in_int_true by (unfold int_min, int_max in *; lia).
    rewrite bind_Ok, int_rem_pos, bind_Ok by lia.
    pose proof (rem_abs_lt id
      (FLAGS_max_thread_num flags - FLAGS_max_caution_thread_num flags) ltac:(lia)).
    unfold int_add. rewrite in_int_true; [done|]. unfold int_min, int_max in *. lia. }
  destruct p; [by apply int_rem_pos | exact Hnormal | exact Hnormal].
Qed.

Lemma GroupObstaclesByObstacleId_Ok flags c id m m' :
  GroupObstaclesByObstacleId flags id c m = Ok m' -> m' = group_step flags c m id.
Proof.
  rewrite GroupObstaclesByObstacleId_by_key. unfold group_step.
  destruct (partition_key c id) as [p|]; [|congruence].
  destruct (bucket_checked flags id p) as [b| |] eqn:Eb; try done.
  rewrite bind_Ok. apply bucket_checked_Ok in Eb. congruence.
Qed.

Lemma GroupObstaclesByObstacleId_defined flags c id m :
  slots_ok flags ->
  GroupObstaclesByObstacleId flags id c m = Ok (group_step flags c m id).
Proof.
  intros Hok. rewrite GroupObstaclesByObstacleId_by_key. unfold group_step.
  destruct (partition_key c id) as [p|]; [|done].
  by rewrite bucket_checked_defined.
Qed.

Lemma group_all_defined flags c ids :
  slots_ok flags ->
  group_all flags c ids = Ok (foldl (group_step flags c) ∅ ids).
Proof.
  intros H. unfold group_all. apply for_each_total.
  intros m id _. by apply GroupObstaclesByObstacleId_defined.
Qed.

Lemma group_all_Ok flags c ids m :
  group_all flags c ids = Ok m -> m = foldl (group_step flags c) ∅ ids.
Proof.
  unfold group_all. apply for_each_fold.
  intros m0 id m1. apply GroupObstaclesByObstacleId_Ok.
Qed.

Lemma group_all_ext flags c c' ids :
  (∀ id, id ∈ ids -> partition_key c' id = partition_key c id) ->
  group_all flags c' ids = group_all flags c ids.
Proof.
  intros H. unfold group_all. apply for_each_ext. intros m id Hid.
  rewrite !GroupObstaclesByObstacleId_by_key. by rewrite H.
Qed.

Lemma push_back_at_lookup k p m b l :
  push_back_at k p m !! b = Some l ->
  (b = k ∧ l = (m !!! k) ++ [p]) ∨ (b ≠ k ∧ m !! b = Some l).
Proof.
  unfold push_back_at. destruct (decide (k = b)) as [->|Hne].
  - rewrite lookup_insert_eq. intros [= <-]. by left.
  - rewrite lookup_insert_ne by done. intros H. right. split; [congruence|done].
Qed.

Lemma lookup_total_elem (m : gmap Z (list ObstaclePtr)) k p :
  p ∈ m !!! k -> ∃ l, m !! k = Some l ∧ p ∈ l.
Proof.
  rewrite lookup_total_alt. destruct (m !! k) as [l|]; simpl.
  - intros H. by exists l.
  - intros H. by apply elem_of_nil in H.
Qed.

(** Every pointer stored by the loop sits under the key of its own id. *)
Lemma group_fold_sound flags c ids m0 :
  (∀ b l p, m0 !! b = Some l -> p ∈ l ->
     ∃ q, partition_key c p = Some q ∧ b = bucket_of flags p q) ->
  ∀ b l p, foldl (group_step flags c) m0 ids !! b = Some l -> p ∈ l ->
     ∃ q, partition_key c p = Some q ∧ b = bucket_of flags p q.
Proof.
  revert m0. induction ids as [|id ids IH]; intros m0 H0; simpl; [done|].
  apply IH. intros b l p Hl Hp. unfold group_step in Hl.
  destruct (partition_key c id) as [q|] eqn:Hq; [|by eapply H0].
  apply push_back_at_lookup in Hl as [[-> ->]|[Hne Hl]]; [|by eapply H0].
  apply elem_of_app in Hp as [Hp|Hp].
  - apply lookup_total_elem in Hp as (l' & Hl' & Hp'). by eapply H0.
  - apply list_elem_of_singleton in Hp as ->. by exists q.
Qed.

(** Pointers only come from the ids that were walked. *)
Lemma group_fold_from_ids flags c ids m0 :
  ∀ b l p, foldl (group_step flags c) m0 ids !! b = Some l -> p ∈ l ->
     p ∈ ids ∨ ∃ l0, m0 !! b = Some l0 ∧ p ∈ l0.
Proof.
  revert m0. induction ids as [|id ids IH]; intros m0 b l p Hl Hp; simpl in *.
  - right. by exists l.
  - destruct (IH _ _ _ _ Hl Hp) as [Hin|(l0 & Hl0 & Hp0)]; [left; by right|].
    unfold group_step in Hl0.
    destruct (partition_key c id) as [q|]; [|right; by exists l0].
    apply push_back_at_lookup in Hl0 as [[-> ->]|[Hne Hl0]]; [|right; by exists l0].
    apply elem_of_app in Hp0 as [Hp0|Hp0].
    + apply lookup_total_elem in Hp0. by right.
    + apply list_elem_of_singleton in Hp0 as ->. left. by left.
Qed.

(** A pointer once stored stays stored. *)
Lemma group_fold_keeps flags c ids m0 b l p :
  m0 !! b = Some l -> p ∈ l ->
  ∃ l', foldl (group_step flags c) m0 ids !! b = Some l' ∧ p ∈ l'.
Proof.
  revert m0 l. induction ids as [|id ids IH]; intros m0 l Hl Hp; simpl.
  - by exists l.
  - unfold group_step at 2. destruct (partition_key c id) as [q|]; [|by eapply IH].
    destruct (decide (bucket_of flags id q = b)) as [<-|Hne].
    + eapply IH.
      * unfold push_back_at. apply lookup_insert_eq.
      * apply elem_of_app. left. rewrite lookup_total_alt, Hl. done.
    + eapply IH; [|exact Hp]. unfold push_back_at. by rewrite lookup_insert_ne.
Qed.

(** Every id that enters the partition is stored under its key. *)
Lemma group_fold_complete flags c ids m0 id q :
  id ∈ ids -> partition_key c id = Some q ->
  ∃ l, foldl (group_step flags c) m0 ids !! bucket_of flags id q = Some l ∧ id ∈ l.
Proof.
  revert m0. induction ids as [|a ids IH]; intros m0 Hin Hq.
  - by apply elem_of_nil in Hin.
  - simpl. apply elem_of_cons in Hin as [->|Hin]; [|by apply IH].
    unfold group_step at 2. rewrite Hq.
    eapply group_fold_keeps.
    + unfold push_back_at. apply lookup_insert_eq.
    + apply elem_of_app. right. by apply list_elem_of_singleton.
Qed.

(** ** Dispatch *)

Section DispatchProperties.

Variable Evaluate : Evaluator -> Obstacle -> Obstacle * bool.
Variable EvaluateEnv : Evaluator -> Obstacle -> list ObstaclePtr -> Obstacle * bool.
Variable GetName : Evaluator -> string.

Local Abbreviation dispatch := (EvaluateObstacle Evaluate EvaluateEnv GetName).

Lemma call_unfold e o log :
  call Evaluate e o log
  = ((Evaluate e o).1, (Evaluate e o).2,
     log ++ [mkInvocation e None (Evaluate e o).2]).
Proof. unfold call. by destruct (Evaluate e o). Qed.

Lemma call_env_unfold e o env log :
  call_env EvaluateEnv e o env log
  = ((EvaluateEnv e o env).1, (EvaluateEnv e o env).2,
     log ++ [mkInvocation e (Some env) (EvaluateEnv e o env).2]).
Proof. unfold call_env. by destruct (EvaluateEnv e o env). Qed.

(** C3, as amended.  The pedestrian case of the switch is commented out, so
    a pedestrian is handled by the default case: when it is on a lane the
    evaluator of the default-on-lane route is called once (the process ends
    if that evaluator is absent), and when it is off lane nothing is called.
    The pedestrian route, the priority and the junction flags play no part. *)
Theorem pedestrian_takes_default_route (m : EvaluatorManager) (o : Obstacle)
    (dynamic_env : list ObstaclePtr) :
  obstacle_type_ o = PEDESTRIAN ->
  dispatch m o dynamic_env =
    if IsOnLane o then
      match GetEvaluator m (default_on_lane_evaluator_ m) with
      | None => Fatal
      | Some e => Ok ((Evaluate e o).1, [mkInvocation e None (Evaluate e o).2])
      end
    else Ok (o, []).
Proof.
  intros Hty. unfold EvaluateObstacle. rewrite Hty.
  destruct (IsOnLane o); [|done].
  destruct (GetEvaluator m (default_on_lane_evaluator_ m)) as [e|]; simpl; [|done].
  by rewrite call_unfold.
Qed.

(** C5.  A vehicle with a junction feature with exits that is not close to
    the exit: under CAUTION the junction-map evaluator is called first and
    the evaluator of the in-junction route is called after it exactly when
    the first call returned false; otherwise the evaluator of the in-junction
    route is called directly.  At most two calls are made and at most one of
    them returned true. *)
Theorem junction_vehicle_calls (m : EvaluatorManager) (o : Obstacle)
    (dynamic_env : list ObstaclePtr) (jm jr : Evaluator) :
  obstacle_type_ o = VEHICLE ->
  HasJunctionFeatureWithExits o = true ->
  IsCloseToJunctionExit o = false ->
  GetEvaluator m JUNCTION_MAP_EVALUATOR = Some jm ->
  GetEvaluator m (vehicle_in_junction_evaluator_ m) = Some jr ->
  ∃ o' log,
    dispatch m o dynamic_env = Ok (o', log)
    ∧ (if decide (Feature.priority (latest_feature o) = CAUTION) then
         if (Evaluate jm o).2 then
           o' = (Evaluate jm o).1 ∧ log = [mkInvocation jm None true]
         else
           o' = (Evaluate jr (Evaluate jm o).1).1
           ∧ log = [mkInvocation jm None false;
                    mkInvocation jr None (Evaluate jr (Evaluate jm o).1).2]
       else
         o' = (Evaluate jr o).1
         ∧ log = [mkInvocation jr None (Evaluate jr o).2])
    ∧ (List.length log <= 2)%nat
    ∧ (List.length (filter (fun i => inv_produced i = true) log) <= 1)%nat.
Proof.
  intros Hty Hj Hx Hjm Hjr. unfold EvaluateObstacle.
  rewrite Hty, Hj, Hx, Hjm, Hjr. simpl.
  destruct (decide (Feature.priority (latest_feature o) = CAUTION)) as [Hc|Hc].
  - rewrite call_unfold. destruct (Evaluate jm o) as [o1 r1] eqn:E1. simpl.
    destruct r1.
    + eexists _, _. split; [done|]. split; [done|]. split; simpl; lia.
    + rewrite call_unfold. simpl.
      eexists _, _. split; [done|]. split; [done|]. split; [simpl; lia|].
      destruct (Evaluate jr o1) as [o2 []]; simpl; rewrite ?filter_cons; simpl;
        repeat case_decide; simpl; try done; lia.
  - rewrite call_unfold. simpl.
    eexists _, _. split; [done|]. split; [done|]. split; [simpl; lia|].
    destruct (Evaluate jr o) as [o2 []]; simpl; rewrite ?filter_cons; simpl;
      repeat case_decide; simpl; try done; lia.
Qed.

Lemma Init_entry_keeps_registry k flags m conf :
  evaluators_ (Init_entry k flags m conf) = evaluators_ m.
Proof.
  unfold Init_entry.
  destruct (ObstacleConf.obstacle_type conf) as [[]|];
    destruct (ObstacleConf.evaluator_type conf);
    destruct (ObstacleConf.obstacle_status conf); simpl; try done;
    repeat case_decide; done.
Qed.

Lemma Init_keeps_registry k flags config m :
  evaluators_ (Init k flags config m) = evaluators_ m.
Proof.
  unfold Init. revert m. induction config as [|conf config IH]; intros m; simpl; [done|].
  rewrite IH. apply Init_entry_keeps_registry.
Qed.

(** C6.  When a route consulted by the dispatch of an obstacle has no
    evaluator instance, the dispatch ends the process; it does not return
    with the call left out.  Reading the configuration neither fails nor
    fills the gap: after [Init] the instance is absent as before. *)
Theorem absent_route_is_fatal (m : EvaluatorManager) (o : Obstacle)
    (dynamic_env : list ObstaclePtr) (t : EvaluatorType) :
  t ∈ routes_consulted Evaluate m o ->
  GetEvaluator m t = None ->
  dispatch m o dynamic_env = Fatal
  ∧ ∀ k flags config, GetEvaluator (Init k flags config m) t = None.
Proof.
  intros Hin Habs. split.
  - unfold routes_consulted in Hin. unfold EvaluateObstacle.
    destruct (obstacle_type_ o);
      try (destruct (IsOnLane o); [|by apply elem_of_nil in Hin];
           apply list_elem_of_singleton in Hin as ->; by rewrite Habs).
    destruct (HasJunctionFeatureWithExits o && negb (IsCloseToJunctionExit o)).
    + destruct (decide (Feature.priority (latest_feature o) = CAUTION)) as [Hc|Hc].
      * destruct (GetEvaluator m JUNCTION_MAP_EVALUATOR) as [e|] eqn:Hjm; simpl.
        -- rewrite call_unfold. destruct (Evaluate e o) as [o1 []]; simpl in *.
           ++ apply list_elem_of_singleton in Hin as ->. congruence.
           ++ apply elem_of_cons in Hin as [->|Hin]; [congruence|].
              apply list_elem_of_singleton in Hin as ->. by rewrite Habs.
        -- done.
      * apply list_elem_of_singleton in Hin as ->. by rewrite Habs.
    + destruct (IsOnLane o); [|by apply elem_of_nil in Hin].
      apply list_elem_of_singleton in Hin as ->. by rewrite Habs.
  - intros k flags config. unfold GetEvaluator in *.
    by rewrite Init_keeps_registry.
Qed.

(** When every consulted route has its instance, the dispatch returns and
    has made one call per consulted route. *)
Lemma present_routes_all_called (m : EvaluatorManager) (o : Obstacle)
    (dynamic_env : list ObstaclePtr) :
  (∀ t, t ∈ routes_consulted Evaluate m o -> is_Some (GetEvaluator m t)) ->
  ∃ o' log, dispatch m o dynamic_env = Ok (o', log)
            ∧ List.length log = List.length (routes_consulted Evaluate m o).
Proof.
  unfold routes_consulted, EvaluateObstacle. intros H.
  destruct (obstacle_type_ o);
    try (destruct (IsOnLane o); [|by eexists _, _];
         destruct (H _ ltac:(by left)) as [e ->]; simpl;
         rewrite call_unfold; by eexists _, _).
  destruct (HasJunctionFeatureWithExits o && negb (IsCloseToJunctionExit o)).
  - destruct (decide (Feature.priority (latest_feature o) = CAUTION)) as [Hc|Hc].
    + destruct (GetEvaluator m JUNCTION_MAP_EVALUATOR) as [e|] eqn:Hjm; simpl.
      * rewrite call_unfold. destruct (Evaluate e o) as [o1 []]; simpl in *.
        -- by eexists _, _.
        -- destruct (H (vehicle_in_junction_evaluator_ m)) as [e' He'];
             [right; by left|].
           rewrite He'. simpl. rewrite call_unfold. by eexists _, _.
      * destruct (H JUNCTION_MAP_EVALUATOR ltac:(by left)) as [e He]. congruence.
    + destruct (H _ ltac:(by left)) as [e' ->]; simpl.
      rewrite call_unfold. by eexists _, _.
  - destruct (IsOnLane o); [|by eexists _, _].
    destruct (H _ ltac:(by left)) as [e' ->]; simpl.
    destruct (String.eqb _ _); rewrite ?call_unfold, ?call_env_unfold; by eexists _, _.
Qed.

End DispatchProperties.

(** ** The history snapshot *)

Lemma history_at_insert h id r : history_at (<[id := r]> h) id = r.
Proof. unfold history_at. by rewrite lookup_insert_eq. Qed.

Lemma add_features_fold id (fs : list Feature.t) h :
  fs ≠ [] ->
  foldl (fun h f => add_feature id f h) h fs
  = <[id := ObstacleHistory.mk (ObstacleHistory.feature (history_at h id) ++ fs)
              (ObstacleHistory.is_trainable (history_at h id))]> h.
Proof.
  revert h. induction fs as [|f fs IH]; intros h Hne; [done|]. simpl.
  destruct fs as [|f' fs].
  - done.
  - rewrite IH by done. unfold add_feature. cbv zeta.
    rewrite !history_at_insert. simpl. rewrite insert_insert_eq.
    by rewrite <- app_assoc.
Qed.

Lemma frames_loop_defined (o : Obstacle) (g : Feature.t -> Feature.t) id n a h :
  (a + n <= history_size o)%nat ->
  for_each (fun h i => obstacle_feature ← feature o i;
                       Ok (add_feature id (g obstacle_feature) h)) (seq a n) h
  = Ok (foldl (fun h f => add_feature id f h) h
          (map g (take n (drop a (feature_history o))))).
Proof.
  unfold history_size. revert a h. induction n as [|n IH]; intros a h Hle.
  - done.
  - destruct (feature_history o !! a) as [f|] eqn:Hf;
      [|apply lookup_ge_None in Hf; lia].
    assert (feature o a = Ok f) as Hfa by (unfold feature; by rewrite Hf).
    rewrite <- cons_seq, for_each_cons, Hfa, !bind_Ok.
    rewrite IH by lia. by rewrite (drop_S _ f a).
Qed.

Lemma build_history_body_defined flags vp c h id :
  build_history_body flags vp c h id = Ok (build_step flags vp c h id).
Proof.
  unfold build_history_body, build_step.
  destruct (GetObstacle c id) as [o|]; [|done].
  destruct (Nat.eqb_spec (history_size o) 0) as [|Hne]; [done|].
  rewrite frames_loop_defined by lia. rewrite bind_Ok, drop_0.
  rewrite add_features_fold.
  - unfold set_is_trainable. cbv zeta. rewrite history_at_insert.
    cbn [ObstacleHistory.feature]. by rewrite insert_insert_eq.
  - intros Hnil. apply (f_equal List.length) in Hnil.
    rewrite length_map, length_take in Hnil. unfold history_size in *.
    cbn [List.length] in Hnil. lia.
Qed.

Lemma BuildObstacleIdHistoryMap_defined flags vp containers c pose m :
  GetContainer_PERCEPTION_OBSTACLES containers = Some c ->
  GetContainer_LOCALIZATION containers = Some pose ->
  BuildObstacleIdHistoryMap flags vp containers m
  = Ok (set_history_map
          (foldl (build_step flags vp c) ∅
             (curr_frame_movable_obstacle_ids c ++ [FLAGS_ego_vehicle_id flags])) m).
Proof.
  intros Hc Hp. unfold BuildObstacleIdHistoryMap. rewrite Hc, Hp.
  cbn [CHECK_NOTNULL]. rewrite !bind_Ok.
  rewrite (for_each_total _ (build_step flags vp c)); [done|].
  intros h id _. apply build_history_body_defined.
Qed.

(** Without one of the two containers the builder ends the process. *)
Lemma BuildObstacleIdHistoryMap_Fatal flags vp containers m :
  GetContainer_PERCEPTION_OBSTACLES containers = None
  ∨ GetContainer_LOCALIZATION containers = None ->
  BuildObstacleIdHistoryMap flags vp containers m = Fatal.
Proof.
  intros H. unfold BuildObstacleIdHistoryMap.
  destruct (GetContainer_PERCEPTION_OBSTACLES containers) as [c|]; [|done].
  destruct H as [H|H]; [done|]. by rewrite H.
Qed.

Lemma build_step_lookup flags vp c h id id' r :
  build_step flags vp c h id !! id' = Some r ->
  h !! id' = Some r
  ∨ (id' = id ∧ ∃ o, GetObstacle c id = Some o ∧ history_size o ≠ 0%nat
       ∧ r = ObstacleHistory.mk
               (ObstacleHistory.feature (history_at h id)
                ++ map (history_frame flags vp)
                     (take (Nat.min 10 (history_size o)) (feature_history o)))
               (IsTrainable flags (latest_feature o))).
Proof.
  unfold build_step.
  destruct (GetObstacle c id) as [o|] eqn:Ho; [|by left].
  destruct (Nat.eqb_spec (history_size o) 0) as [|Hne]; [by left|].
  destruct (decide (id = id')) as [<-|Hd].
  - rewrite lookup_insert_eq. intros [= <-]. right. split; [done|]. by exists o.
  - rewrite lookup_insert_ne by done. by left.
Qed.

Lemma build_fold_records flags vp c ids h0 :
  (∀ id r, h0 !! id = Some r -> record_from flags c id r) ->
  ∀ id r, foldl (build_step flags vp c) h0 ids !! id = Some r ->
          record_from flags c id r.
Proof.
  revert h0. induction ids as [|a ids IH]; intros h0 H0; simpl; [done|].
  apply IH. intros id r Hr.
  apply build_step_lookup in Hr as [Hr|(-> & o & Ho & Hne & ->)]; [by apply H0|].
  by exists o.
Qed.

(** With each id walked once, a record holds the frames of one visit. *)

(** The frame environment holds records of the map only: the ego record
    under the ego id, the others under other ids. *)
Lemma DumpCurrentFrameEnv_records flags c m :
  let env := DumpCurrentFrameEnv flags c m in
  (∀ r, FrameEnv.ego_history env = Some r ->
        obstacle_id_history_map_ m !! FLAGS_ego_vehicle_id flags = Some r)
  ∧ (∀ r, r ∈ FrameEnv.obstacles_history env ->
        ∃ id, id ≠ FLAGS_ego_vehicle_id flags
              ∧ obstacle_id_history_map_ m !! id = Some r).
Proof.
  unfold DumpCurrentFrameEnv.
  set (step := fun (env : FrameEnv.t) (pr : Z * ObstacleHistory.t) => _).
  set (env0 := FrameEnv.mk _ _ _).
  assert (∀ l env,
    (∀ pr, pr ∈ l -> obstacle_id_history_map_ m !! pr.1 = Some pr.2) ->
    ((∀ r, FrameEnv.ego_history env = Some r ->
        obstacle_id_history_map_ m !! FLAGS_ego_vehicle_id flags = Some r)
     ∧ (∀ r, r ∈ FrameEnv.obstacles_history env ->
        ∃ id, id ≠ FLAGS_ego_vehicle_id flags
              ∧ obstacle_id_history_map_ m !! id = Some r)) ->
    ((∀ r, FrameEnv.ego_history (foldl step env l) = Some r ->
        obstacle_id_history_map_ m !! FLAGS_ego_vehicle_id flags = Some r)
     ∧ (∀ r, r ∈ FrameEnv.obstacles_history (foldl step env l) ->
        ∃ id, id ≠ FLAGS_ego_vehicle_id flags
              ∧ obstacle_id_history_map_ m !! id = Some r))) as Hfold.
  { induction l as [|[id r] l IH]; intros env Hl Henv; simpl; [done|].
    apply IH; [intros pr Hpr; apply Hl; by right|].
    pose proof (Hl (id, r) ltac:(by left)) as Hidr. simpl in Hidr.
    destruct Henv as [Hego Hothers]. subst step. simpl.
    destruct (decide (id ≠ FLAGS_ego_vehicle_id flags)) as [Hne|Heq]; simpl.
    - split; [done|]. intros r' Hr'. apply elem_of_app in Hr' as [Hr'|Hr'].
      + by apply Hothers.
      + apply list_elem_of_singleton in Hr' as ->. by exists id.
    - split; [|done]. intros r' [= <-].
      destruct (decide (id = FLAGS_ego_vehicle_id flags)) as [<-|]; [done|].
      by destruct Heq. }
  simpl. apply Hfold.
  - intros [id r] Hin. simpl. by apply elem_of_map_to_list in Hin.
  - subst env0. simpl. split; [done|]. intros r Hr. by apply elem_of_nil in Hr.
Qed.

Lemma take_min_length {A : Type} (n : nat) (l : list A) :
  take (Nat.min n (List.length l)) l = take n l.
Proof.
  destruct (Nat.le_ge_cases n (List.length l)).
  - by rewrite Nat.min_l.
  - rewrite Nat.min_r by done. by rewrite !take_ge by lia.
Qed.

Lemma build_step_frames flags vp c h id o :
  GetObstacle c id = Some o -> history_size o ≠ 0%nat ->
  build_step flags vp c h id
  = <[id := ObstacleHistory.mk
              (ObstacleHistory.feature (history_at h id) ++ frames_of flags vp o)
              (IsTrainable flags (latest_feature o))]> h.
Proof.
  intros Ho Hne. unfold build_step, frames_of. rewrite Ho.
  destruct (Nat.eqb_spec (history_size o) 0); [done|].
  unfold history_size. by rewrite take_min_length.
Qed.

Lemma build_step_skip flags vp c h id :
  (GetObstacle c id = None ∨ ∃ o, GetObstacle c id = Some o ∧ history_size o = 0%nat) ->
  build_step flags vp c h id = h.
Proof.
  unfold build_step. intros [->|(o & -> & ->)]; done.
Qed.

Lemma build_fold_record flags vp c ids id o : ∀ h0,
  GetObstacle c id = Some o -> history_size o ≠ 0%nat ->
  foldl (build_step flags vp c) h0 ids !! id
  = match count_occ Z.eq_dec ids id with
    | O => h0 !! id
    | S n =>
      Some (ObstacleHistory.mk
              (ObstacleHistory.feature (history_at h0 id)
               ++ mjoin (replicate (S n) (frames_of flags vp o)))
              (IsTrainable flags (latest_feature o)))
    end.
Proof.
  induction ids as [|a ids IH]; intros h0 Ho Hne; [done|].
  cbn [foldl count_occ]. rewrite IH by done.
  destruct (Z.eq_dec a id) as [->|Hd].
  - rewrite (build_step_frames flags vp c h0 id o) by done.
    rewrite history_at_insert. cbn [ObstacleHistory.feature].
    destruct (count_occ Z.eq_dec ids id) as [|n].
    + rewrite lookup_insert_eq. simpl. by rewrite app_nil_r.
    + simpl. by rewrite <- !app_assoc.
  - assert (build_step flags vp c h0 a !! id = h0 !! id) as Hsame.
    { unfold build_step. destruct (GetObstacle c a) as [oa|]; [|done].
      destruct (history_size oa =? 0)%nat; [done|]. by rewrite lookup_insert_ne. }
    unfold history_at. by rewrite Hsame.
Qed.

Lemma build_fold_no_record flags vp c ids id : ∀ h0,
  (GetObstacle c id = None ∨ ∃ o, GetObstacle c id = Some o ∧ history_size o = 0%nat) ->
  foldl (build_step flags vp c) h0 ids !! id = h0 !! id.
Proof.
  induction ids as [|a ids IH]; intros h0 Hid; [done|].
  cbn [foldl]. rewrite IH by done. unfold build_step.
  destruct (GetObstacle c a) as [oa|] eqn:Hoa; [|done].
  destruct (Nat.eqb_spec (history_size oa) 0) as [|Hne]; [done|].
  rewrite lookup_insert_ne; [done|]. intros ->.
  destruct Hid as [Hid|(o & Ho & Hz)]; congruence.
Qed.

Lemma history_record_exact_parts (flags : Flags) (vehicle_param : VehicleParam)
    (containers : ContainerManager) (c : ObstaclesContainer)
    (ego_pose_container : PoseContainer) (m : EvaluatorManager) :
  GetContainer_PERCEPTION_OBSTACLES containers = Some c ->
  GetContainer_LOCALIZATION containers = Some ego_pose_container ->
  ∃ m', BuildObstacleIdHistoryMap flags vehicle_param containers m = Ok m'
    ∧ ∀ id,
        obstacle_id_history_map_ m' !! id
        = match GetObstacle c id with
          | Some o =>
            if (history_size o =? 0)%nat then None
            else match count_occ Z.eq_dec (history_ids flags c) id with
                 | O => None
                 | S n =>
                   Some (ObstacleHistory.mk
                           (mjoin (replicate (S n) (frames_of flags vehicle_param o)))
                           (IsTrainable flags (latest_feature o)))
                 end
          | None => None
          end.
Proof.
  intros Hc Hp.
  rewrite (BuildObstacleIdHistoryMap_defined _ _ _ c ego_pose_container _ Hc Hp).
  eexists. split; [done|].
  intros id. cbn [obstacle_id_history_map_ set_history_map]. fold (history_ids flags c).
  destruct (GetObstacle c id) as [o|] eqn:Ho.
  - destruct (Nat.eqb_spec (history_size o) 0) as [Hz|Hne].
    + rewrite build_fold_no_record by (right; by exists o). apply lookup_empty.
    + rewrite (build_fold_record flags vehicle_param c _ id o) by done.
      destruct (count_occ _ _ _); [apply lookup_empty|].
      unfold history_at. by rewrite lookup_empty.
  - rewrite build_fold_no_record by by left. apply lookup_empty.
Qed.

Lemma length_mjoin_replicate {A : Type} (n : nat) (l : list A) :
  List.length (mjoin (replicate n l)) = (n * List.length l)%nat.
Proof.
  induction n as [|n IH]; [done|].
  simpl. rewrite length_app, IH. done.
Qed.

Lemma frames_of_length flags vp o :
  List.length (frames_of flags vp o) = Nat.min 10 (history_size o).
Proof. unfold frames_of, history_size. by rewrite length_map, length_take. Qed.

(** C7, as amended.  The builder walks the movable ids followed by the ego
    id and, at every visit of an id, appends min(10, history size) frames to
    the record of that id.  With both containers registered, the record of
    an obstacle therefore holds that number of frames once per occurrence of
    its id among the ids walked; a record whose id is walked once holds
    exactly min(10, history size) frames, hence never more than 10. *)
Theorem history_frames_bounded (flags : Flags) (vehicle_param : VehicleParam)
    (containers : ContainerManager) (c : ObstaclesContainer)
    (ego_pose_container : PoseContainer) (m : EvaluatorManager) :
  GetContainer_PERCEPTION_OBSTACLES containers = Some c ->
  GetContainer_LOCALIZATION containers = Some ego_pose_container ->
  ∃ m', BuildObstacleIdHistoryMap flags vehicle_param containers m = Ok m'
    ∧ ∀ id r, obstacle_id_history_map_ m' !! id = Some r ->
        let visits :=
          count_occ Z.eq_dec
            (curr_frame_movable_obstacle_ids c ++ [FLAGS_ego_vehicle_id flags]) id in
        ∃ o, GetObstacle c id = Some o
             ∧ List.length (ObstacleHistory.feature r)
               = (visits * Nat.min 10 (history_size o))%nat
             ∧ (visits = 1%nat ->
                  List.length (ObstacleHistory.feature r) = Nat.min 10 (history_size o)
                  ∧ (List.length (ObstacleHistory.feature r) <= 10)%nat).
Proof.
  intros Hc Hp.
  destruct (history_record_exact_parts flags vehicle_param containers c
              ego_pose_container m Hc Hp) as (m' & Hm' & Hrec).
  exists m'. split; [done|]. intros id r Hr visits. rewrite Hrec in Hr.
  unfold history_ids in Hr. fold visits in Hr.
  destruct (GetObstacle c id) as [o|]; [|done].
  destruct (history_size o =? 0)%nat; [done|].
  exists o. split; [done|].
  destruct visits as [|n]; [done|].
  injection Hr as <-. cbn [ObstacleHistory.feature].
  rewrite length_app, length_mjoin_replicate, frames_of_length.
  pose proof (Nat.le_min_l 10 (history_size o)) as Hle.
  set (k := Nat.min 10 (history_size o)) in *.
  split; [done|]. intros [= ->]. lia.
Qed.

(** C8.  The trainable flag of every record of the snapshot is true exactly
    when, on the latest feature of the obstacle, the id differs from the ego
    id, the priority is not IGNORE, the feature is not still and the type is
    VEHICLE.  The snapshot exists when both containers are registered; the
    builder ends the process otherwise. *)
Theorem trainable_flag_correct (flags : Flags) (vehicle_param : VehicleParam)
    (containers : ContainerManager) (c : ObstaclesContainer)
    (ego_pose_container : PoseContainer) (m : EvaluatorManager) :
  GetContainer_PERCEPTION_OBSTACLES containers = Some c ->
  GetContainer_LOCALIZATION containers = Some ego_pose_container ->
  ∃ m', BuildObstacleIdHistoryMap flags vehicle_param containers m = Ok m'
    ∧ ∀ id r, obstacle_id_history_map_ m' !! id = Some r ->
        ∃ o, GetObstacle c id = Some o
             ∧ (ObstacleHistory.is_trainable r = true <->
                  Feature.id (latest_feature o) ≠ FLAGS_ego_vehicle_id flags
                  ∧ Feature.priority (latest_feature o) ≠ IGNORE
                  ∧ Feature.is_still (latest_feature o) = false
                  ∧ Feature.type (latest_feature o) = VEHICLE).
Proof.
  intros Hc Hp.
  rewrite (BuildObstacleIdHistoryMap_defined _ _ _ c ego_pose_container _ Hc Hp).
  eexists. split; [done|].
  intros id r Hr. simpl in Hr.
  apply build_fold_records in Hr as (o & Ho & _ & Ht); [|done].
  exists o. split; [done|]. rewrite Ht. unfold IsTrainable.
  destruct (decide (Feature.id (latest_feature o) = FLAGS_ego_vehicle_id flags)).
  - split; [done|]. by intros [? _].
  - destruct (Feature.priority (latest_feature o)),
      (Feature.is_still (latest_feature o)), (Feature.type (latest_feature o));
      simpl; split; try done; try (by intros (_ & ? & ? & ?)).
Qed.

(** C10.  An id whose obstacle is absent from the container, or has no stored
    frame, has no record in the history map and none in the frame
    environment: when it is the ego id the ego history is not set, and every
    record among the other histories is that of another id.  The snapshot
    exists when both containers are registered. *)
Theorem no_record_without_history (flags : Flags) (vehicle_param : VehicleParam)
    (containers : ContainerManager) (c : ObstaclesContainer)
    (ego_pose_container : PoseContainer) (m : EvaluatorManager) (id : Z) :
  GetContainer_PERCEPTION_OBSTACLES containers = Some c ->
  GetContainer_LOCALIZATION containers = Some ego_pose_container ->
  (GetObstacle c id = None
   ∨ ∃ o, GetObstacle c id = Some o ∧ history_size o = 0%nat) ->
  ∃ m', BuildObstacleIdHistoryMap flags vehicle_param containers m = Ok m'
    ∧ obstacle_id_history_map_ m' !! id = None
    ∧ (id = FLAGS_ego_vehicle_id flags ->
         FrameEnv.ego_history (DumpCurrentFrameEnv flags c m') = None)
    ∧ (∀ r, r ∈ FrameEnv.obstacles_history (DumpCurrentFrameEnv flags c m') ->
         ∃ id', id' ≠ id ∧ id' ≠ FLAGS_ego_vehicle_id flags
                ∧ obstacle_id_history_map_ m' !! id' = Some r).
Proof.
  intros Hc Hp Hid.
  rewrite (BuildObstacleIdHistoryMap_defined _ _ _ c ego_pose_container _ Hc Hp).
  eexists. split; [done|].
  set (m' := set_history_map _ m).
  assert (obstacle_id_history_map_ m' !! id = None) as Hnone.
  { destruct (obstacle_id_history_map_ m' !! id) as [r|] eqn:Hr; [|done].
    subst m'. simpl in Hr.
    apply build_fold_records in Hr as (o & Ho & Hne & _); [|done].
    destruct Hid as [Hid|(o' & Ho' & Hz)]; congruence. }
  split; [done|].
  destruct (DumpCurrentFrameEnv_records flags c m') as [Hego Hothers].
  split.
  - intros ->.
    destruct (FrameEnv.ego_history (DumpCurrentFrameEnv flags c m')) as [r|] eqn:E;
      [|done].
    specialize (Hego r eq_refl). congruence.
  - intros r Hr. destruct (Hothers r Hr) as (id' & Hne & Hl).
    exists id'. split; [|done]. intros ->. congruence.
Qed.

(** ** Resolution of the routes *)

Lemma Init_entry_vehicle_on_lane k flags m conf :
  FLAGS_prediction_offline_mode flags = k ->
  vehicle_on_lane_evaluator_ (Init_entry k flags m conf)
  = if sets_vehicle_on_lane conf then LANE_SCANNING_EVALUATOR
    else vehicle_on_lane_evaluator_ m.
Proof.
  intros Hk. unfold Init_entry, sets_vehicle_on_lane.
  destruct conf as [[[]|] [[]|] [e|]]; simpl; try done;
    repeat case_decide; try done.
Qed.

(** C9, as amended.  In data-collection mode the vehicle-on-lane route after
    [Init] is the lane-scanning evaluator, whatever evaluator types are
    declared, as soon as the configuration has an entry for vehicles on lane
    that names an evaluator; with no such entry the route keeps the value it
    had before [Init]. *)
Theorem data_collection_forces_scanning (k : Z) (flags : Flags)
    (config : list ObstacleConf.t) (m : EvaluatorManager) :
  FLAGS_prediction_offline_mode flags = k ->
  vehicle_on_lane_evaluator_ (Init k flags config m)
  = if existsb sets_vehicle_on_lane config then LANE_SCANNING_EVALUATOR
    else vehicle_on_lane_evaluator_ m.
Proof.
  intros Hk. unfold Init. revert m.
  induction config as [|conf config IH]; intros m; simpl; [done|].
  rewrite IH, Init_entry_vehicle_on_lane by done.
  destruct (sets_vehicle_on_lane conf); simpl; [|done].
  by destruct (existsb sets_vehicle_on_lane config).
Qed.

(** ** Partition of the obstacles *)

(** For ids that are not negative the keys stay in the range of their
    priority class. *)
Lemma bucket_of_range_nonneg (flags : Flags) (id : Z) :
  slots_ok flags -> 0 <= id ->
  0 <= bucket_of flags id CAUTION < FLAGS_max_caution_thread_num flags
  ∧ FLAGS_max_caution_thread_num flags <= bucket_of flags id NORMAL
    < FLAGS_max_thread_num flags.
Proof.
  intros (Hc & Hn & _) Hid. unfold bucket_of. split.
  - by apply rem_nonneg_range.
  - pose proof (rem_nonneg_range id
      (FLAGS_max_thread_num flags - FLAGS_max_caution_thread_num flags) Hid).
    lia.
Qed.

(** For negative ids the keys fall on or below the lower end of the range of
    their priority class: a CAUTION id lands in (-Cc, 0] and a NORMAL id in
    (Cc - Cn, Cc]. *)
Lemma bucket_of_range_negative (flags : Flags) (id : Z) :
  slots_ok flags -> id < 0 ->
  - FLAGS_max_caution_thread_num flags < bucket_of flags id CAUTION <= 0
  ∧ FLAGS_max_caution_thread_num flags
    - (FLAGS_max_thread_num flags - FLAGS_max_caution_thread_num flags)
    < bucket_of flags id NORMAL <= FLAGS_max_caution_thread_num flags.
Proof.
  intros (Hc & Hn & _) Hid. unfold bucket_of. split.
  - pose proof (Z.rem_bound_pos_neg id (FLAGS_max_caution_thread_num flags)
                  ltac:(lia) ltac:(lia)). lia.
  - pose proof (Z.rem_bound_pos_neg id
      (FLAGS_max_thread_num flags - FLAGS_max_caution_thread_num flags)
      ltac:(lia) ltac:(lia)). lia.
Qed.

(** C1 (the code departs from it).  In multi-thread mode a negative id is
    grouped like any other, and [%] keeps the sign of the id.  With one
    caution slot out of four, the NORMAL obstacle of id -1 is stored under
    key 0, the key of the caution slot, outside [1, 4).  With two caution
    slots, the CAUTION obstacle of id -1 is stored under key -1, outside
    [0, 2). *)
Theorem negative_id_leaves_its_range :
  (GroupObstaclesByObstacleId (sample_flags 1 true) (-1) (negative_container NORMAL) ∅
   = Ok {[ 0 := [-1] ]}
   ∧ ¬ (FLAGS_max_caution_thread_num (sample_flags 1 true) <= 0
        < FLAGS_max_thread_num (sample_flags 1 true)))
  ∧ (GroupObstaclesByObstacleId (sample_flags 2 true) (-1) (negative_container CAUTION) ∅
     = Ok {[ -1 := [-1] ]}
     ∧ ¬ (0 <= -1 < FLAGS_max_caution_thread_num (sample_flags 2 true))).
Proof.
  split; (split; [vm_compute; reflexivity | simpl; lia]).
Qed.

(** The map built by the grouping loop: what it holds and where. *)
Lemma partition_parts (flags : Flags) (c : ObstaclesContainer) (ids : list Z) m :
  group_all flags c ids = Ok m ->
  (∀ b l p, m !! b = Some l -> p ∈ l ->
     p ∈ ids ∧ ∃ q, partition_key c p = Some q ∧ b = bucket_of flags p q)
  ∧ (∀ id q, id ∈ ids -> partition_key c id = Some q ->
       ∃ l, m !! bucket_of flags id q = Some l ∧ id ∈ l).
Proof.
  intros Hm. apply group_all_Ok in Hm as ->. split.
  - intros b l p Hl Hp. split.
    + destruct (group_fold_from_ids _ _ _ _ _ _ _ Hl Hp) as [?|(l0 & Hl0 & _)]; [done|].
      by rewrite lookup_empty in Hl0.
    + eapply group_fold_sound; [|exact Hl|exact Hp].
      intros b' l' p' Hl'. by rewrite lookup_empty in Hl'.
  - intros id q Hin Hq. by apply group_fold_complete.
Qed.

(** C2.  Whenever the arithmetic of the grouping is defined - and it is for
    every configuration with at least one caution slot and one normal slot -
    the loop returns a map in which: every stored pointer is one of the
    walked ids and sits under the key computed from its id and priority
    alone; every id that enters the partition is stored under that key; no
    pointer is stored under two keys; and a container that gives the same ids
    the same priorities yields the same map. *)
Theorem partition_deterministic_exclusive (flags : Flags) (c : ObstaclesContainer)
    (ids : list Z) :
  (slots_ok flags -> ∃ m, group_all flags c ids = Ok m)
  ∧ ∀ m, group_all flags c ids = Ok m ->
      (∀ b l p, m !! b = Some l -> p ∈ l ->
         p ∈ ids ∧ ∃ q, partition_key c p = Some q ∧ b = bucket_of flags p q)
      ∧ (∀ id q, id ∈ ids -> partition_key c id = Some q ->
           ∃ l, m !! bucket_of flags id q = Some l ∧ id ∈ l)
      ∧ (∀ p b1 b2 l1 l2, m !! b1 = Some l1 -> m !! b2 = Some l2 ->
           p ∈ l1 -> p ∈ l2 -> b1 = b2)
      ∧ (∀ c', (∀ id, id ∈ ids -> partition_key c' id = partition_key c id) ->
           group_all flags c' ids = Ok m).
Proof.
  split.
  - intros Hok. rewrite group_all_defined by done. by eexists.
  - intros m Hm. destruct (partition_parts flags c ids m Hm) as [Hsound Hcomplete].
    split; [done|]. split; [done|]. split.
    + intros p b1 b2 l1 l2 H1 H2 Hp1 Hp2.
      destruct (Hsound _ _ _ H1 Hp1) as (_ & q1 & Hq1 & ->).
      destruct (Hsound _ _ _ H2 Hp2) as (_ & q2 & Hq2 & ->).
      congruence.
    + intros c' Hext. by rewrite (group_all_ext flags c c').
Qed.

Lemma partition_deterministic_exclusive_witness :
  ∃ m, group_all (sample_flags 1 true) sample_container [1; 2; 3; 4] = Ok m
       ∧ ∀ p b1 b2 l1 l2, m !! b1 = Some l1 -> m !! b2 = Some l2 ->
           p ∈ l1 -> p ∈ l2 -> b1 = b2.
Proof.
  destruct (partition_deterministic_exclusive (sample_flags 1 true) sample_container
              [1; 2; 3; 4]) as [Hdef Hprops].
  destruct Hdef as (m & Hm).
  - unfold slots_ok, int_max. simpl. lia.
  - exists m. split; [exact Hm|].
    destruct (Hprops m Hm) as (_ & _ & Hex & _). exact Hex.
Defined.

(** The end-to-end scenario: obstacle 1 goes to bucket 0, obstacle 2 to
    bucket 3, the pedestrian to bucket 1, and obstacle 4 to none. *)
Example scenario_buckets :
  group_all (sample_flags 1 true) sample_container [1; 2; 3; 4]
  = Ok (<[0 := [1]]> (<[3 := [2]]> (<[1 := [3]]> ∅))).
Proof. vm_compute. reflexivity. Qed.

(** ** The two modes of [Run] *)

Section RunProperties.

Variable Evaluate : Evaluator -> Obstacle -> Obstacle * bool.
Variable EvaluateEnv : Evaluator -> Obstacle -> list ObstaclePtr -> Obstacle * bool.
Variable GetName : Evaluator -> string.

Lemma evaluate_ptr_Ok m worker env (st st' : RunState) p :
  evaluate_ptr Evaluate EvaluateEnv GetName m worker env st p = Ok st' ->
  ∃ o o' log, st.1 !! p = Some o
    ∧ EvaluateObstacle Evaluate EvaluateEnv GetName m o env = Ok (o', log)
    ∧ st' = (<[p := o']> st.1, st.2 ++ [mkDispatched worker p log]).
Proof.
  unfold evaluate_ptr. destruct (st.1 !! p) as [o|]; [|done].
  destruct (EvaluateObstacle _ _ _ m o env) as [[o' log]| |] eqn:E; simpl; try done.
  intros [= <-]. by exists o, o', log.
Qed.

Lemma single_thread_keeps_ext c c' id :
  obstacles c !! id = obstacles c' !! id ->
  single_thread_keeps c id = single_thread_keeps c' id.
Proof. unfold single_thread_keeps, GetObstacle. by intros ->. Qed.

Lemma run_single_body_keeps m env (st : RunState) id :
  run_single_body Evaluate EvaluateEnv GetName m env st id
  = if single_thread_keeps (mkContainer st.1 [] [] 0) id
    then evaluate_ptr Evaluate EvaluateEnv GetName m None env st id
    else Ok st.
Proof.
  unfold run_single_body, single_thread_keeps, GetObstacle. cbn [obstacles].
  destruct (Z.ltb_spec id 0), (Z.leb_spec 0 id); try lia; [done|].
  cbn [andb]. destruct (st.1 !! id) as [o|]; [|done]. by destruct (IsStill o).
Qed.

(** In single-thread mode, with each id listed once, the obstacles handed to
    the dispatch are those kept by [single_thread_keeps], in the order of the
    list, whatever their priority. *)
Lemma single_thread_loop m env c ids :
  NoDup ids ->
  ∀ obs' log st,
    (∀ id, id ∈ ids -> obs' !! id = obstacles c !! id) ->
    for_each (run_single_body Evaluate EvaluateEnv GetName m env) ids (obs', log) = Ok st ->
    d_obstacle <$> st.2
    = (d_obstacle <$> log) ++ List.filter (single_thread_keeps c) ids.
Proof.
  induction ids as [|id ids IH]; intros Hnd obs' log st Hagree Hrun.
  - injection Hrun as <-. simpl. by rewrite app_nil_r.
  - apply NoDup_cons in Hnd as [Hid Hnd]. rewrite for_each_cons in Hrun.
    rewrite run_single_body_keeps in Hrun.
    rewrite (single_thread_keeps_ext _ c) in Hrun by (apply Hagree; by left).
    cbn [List.filter]. destruct (single_thread_keeps c id).
    + destruct (evaluate_ptr _ _ _ m None env (obs', log) id) as [st1| |] eqn:E;
        try done.
      rewrite bind_Ok in Hrun.
      apply evaluate_ptr_Ok in E as (o1 & o' & lg & _ & _ & ->).
      assert (∀ id', id' ∈ ids ->
                <[id := o']> (obs', log).1 !! id' = obstacles c !! id') as Hagree'.
      { intros id' Hid'. cbn [fst]. rewrite lookup_insert_ne.
        - apply Hagree. by right.
        - intros ->. done. }
      rewrite (IH Hnd _ _ _ Hagree' Hrun).
      cbn [snd]. rewrite fmap_app. cbn [fmap list_fmap d_obstacle].
      by rewrite <- app_assoc.
    + rewrite bind_Ok in Hrun. apply (IH Hnd obs' log st); [|done].
      intros. apply Hagree. by right.
Qed.

Lemma bucket_loop m env worker l : ∀ (st st' : RunState),
  for_each (evaluate_ptr Evaluate EvaluateEnv GetName m worker env) l st = Ok st' ->
  d_obstacle <$> st'.2 = (d_obstacle <$> st.2) ++ l.
Proof.
  induction l as [|p l IH]; intros st st' Hrun.
  - injection Hrun as <-. by rewrite app_nil_r.
  - rewrite for_each_cons in Hrun.
    destruct (evaluate_ptr _ _ _ m worker env st p) as [st1| |] eqn:E; try done.
    rewrite bind_Ok in Hrun. apply IH in Hrun. rewrite Hrun.
    apply evaluate_ptr_Ok in E as (o1 & o' & lg & _ & _ & ->).
    cbn [snd]. rewrite fmap_app. cbn [fmap list_fmap d_obstacle]. by rewrite <- app_assoc.
Qed.

Lemma buckets_loop m env (bl : list (Z * list ObstaclePtr)) : ∀ (st st' : RunState),
  for_each (run_bucket Evaluate EvaluateEnv GetName m env) bl st = Ok st' ->
  d_obstacle <$> st'.2 = (d_obstacle <$> st.2) ++ mjoin (snd <$> bl).
Proof.
  induction bl as [|[b l] bl IH]; intros st st' Hrun.
  - injection Hrun as <-. by rewrite app_nil_r.
  - rewrite for_each_cons in Hrun.
    destruct (run_bucket _ _ _ m env st (b, l)) as [st1| |] eqn:E; try done.
    rewrite bind_Ok in Hrun. apply IH in Hrun. rewrite Hrun.
    unfold run_bucket in E. apply bucket_loop in E. rewrite E.
    cbn [fmap list_fmap snd mjoin list_join]. by rewrite <- app_assoc.
Qed.

(** In multi-thread mode the obstacles handed to the dispatch are the listed
    ids that enter the partition, whatever their sign. *)
Lemma multi_thread_dispatched flags m c (st : RunState) :
  FLAGS_enable_multi_thread flags = true ->
  Run_dispatch Evaluate EvaluateEnv GetName flags m c = Ok st ->
  ∀ p, p ∈ d_obstacle <$> st.2
       <-> p ∈ curr_frame_considered_obstacle_ids c ∧ is_Some (partition_key c p).
Proof.
  intros Hmt Hrun p. unfold Run_dispatch in Hrun. rewrite Hmt in Hrun.
  destruct (group_all flags c (curr_frame_considered_obstacle_ids c)) as [idm| |] eqn:Hidm;
    try done.
  destruct (partition_parts flags c _ idm Hidm) as [Hsound Hcomplete].
  rewrite bind_Ok in Hrun. unfold ForEach_buckets in Hrun.
  apply buckets_loop in Hrun. rewrite Hrun. cbn [snd fmap list_fmap app].
  rewrite list_elem_of_join. split.
  - intros (l & Hp & Hl). apply list_elem_of_fmap in Hl as ([b l'] & -> & Hbl).
    apply elem_of_map_to_list in Hbl. simpl in Hp.
    destruct (Hsound b l' p Hbl Hp) as (Hin & q & Hq & _). split; [done|]. by exists q.
  - intros (Hin & q & Hq). destruct (Hcomplete p q Hin Hq) as (l & Hl & Hp).
    exists l. split; [done|]. apply list_elem_of_fmap.
    exists (bucket_of flags p q, l). split; [done|]. by apply elem_of_map_to_list.
Qed.

Lemma single_thread_dispatched flags m c (st : RunState) :
  FLAGS_enable_multi_thread flags = false ->
  NoDup (curr_frame_considered_obstacle_ids c) ->
  Run_dispatch Evaluate EvaluateEnv GetName flags m c = Ok st ->
  d_obstacle <$> st.2
  = List.filter (single_thread_keeps c) (curr_frame_considered_obstacle_ids c).
Proof.
  intros Hmt Hnd Hrun. unfold Run_dispatch in Hrun. rewrite Hmt in Hrun.
  by rewrite (single_thread_loop m [] c _ Hnd _ _ _ (fun _ _ => eq_refl) Hrun).
Qed.

(** X17.  Where the two filters coincide - no listed id is negative and no
    listed moving obstacle has priority IGNORE - both modes hand the same
    obstacles to the dispatch. *)
Lemma modes_dispatch_same_obstacles flags1 flags2 m c (st1 st2 : RunState) :
  FLAGS_enable_multi_thread flags1 = true ->
  FLAGS_enable_multi_thread flags2 = false ->
  NoDup (curr_frame_considered_obstacle_ids c) ->
  (∀ id, id ∈ curr_frame_considered_obstacle_ids c -> 0 <= id) ->
  (∀ id o, id ∈ curr_frame_considered_obstacle_ids c ->
     GetObstacle c id = Some o -> IsStill o = false ->
     Feature.priority (latest_feature o) ≠ IGNORE) ->
  Run_dispatch Evaluate EvaluateEnv GetName flags1 m c = Ok st1 ->
  Run_dispatch Evaluate EvaluateEnv GetName flags2 m c = Ok st2 ->
  ∀ p, p ∈ d_obstacle <$> st1.2 <-> p ∈ d_obstacle <$> st2.2.
Proof.
  intros H1 H2 Hnd Hpos Hprio Hrun1 Hrun2 p.
  rewrite (multi_thread_dispatched flags1 m c st1 H1 Hrun1 p).
  rewrite (single_thread_dispatched flags2 m c st2 H2 Hnd Hrun2).
  specialize (Hprio p). unfold single_thread_keeps, partition_key in *. split.
  - intros [Hin Hk]. apply list_elem_of_In, filter_In.
    split; [by apply list_elem_of_In|]. specialize (Hpos p Hin).
    destruct (GetObstacle c p) as [o|]; [|by destruct Hk].
    destruct (IsStill o); [by destruct Hk|].
    apply andb_true_iff. split; [lia|done].
  - intros Hf. apply list_elem_of_In, filter_In in Hf as [Hin Hk].
    apply list_elem_of_In in Hin. split; [done|].
    apply andb_true_iff in Hk as [_ Hk].
    destruct (GetObstacle c p) as [o|]; [|done].
    destruct (IsStill o) eqn:Hstill; [done|].
    specialize (Hprio o Hin eq_refl Hstill).
    destruct (Feature.priority (latest_feature o)); [by eexists|by eexists|done].
Qed.

End RunProperties.

(** C4 (the code departs from it).  The single-thread loop drops negative
    ids, absent obstacles and still obstacles, but not the priority IGNORE.
    A moving vehicle on lane of priority IGNORE does not enter the partition
    and is dispatched by no worker in multi-thread mode, whereas the
    single-thread mode calls the vehicle-on-lane evaluator on it. *)
Theorem single_thread_dispatches_ignored :
  partition_key ignored_container 4 = None
  ∧ Run_dispatch sample_Evaluate sample_EvaluateEnv sample_GetName
      (sample_flags 1 true) sample_manager ignored_container
    = Ok (obstacles ignored_container, [])
  ∧ Run_dispatch sample_Evaluate sample_EvaluateEnv sample_GetName
      (sample_flags 1 false) sample_manager ignored_container
    = Ok (obstacles ignored_container,
          [mkDispatched None 4 [mkInvocation CruiseMLPEvaluator None true]]).
Proof.
  split; [reflexivity|]. split; vm_compute; reflexivity.
Qed.

(** ** Instances *)

Lemma pedestrian_takes_default_route_witness :
  EvaluateObstacle sample_Evaluate sample_EvaluateEnv sample_GetName sample_manager
    (sample_obstacle 3 NORMAL PEDESTRIAN false true false 1) []
  = Ok (sample_obstacle 3 NORMAL PEDESTRIAN false true false 1, []).
Proof.
  rewrite (pedestrian_takes_default_route sample_Evaluate sample_EvaluateEnv
             sample_GetName sample_manager
             (sample_obstacle 3 NORMAL PEDESTRIAN false true false 1) [])
    by reflexivity.
  reflexivity.
Defined.

(** The claim C3 as it stands fails: a pedestrian on a lane is handed to the
    evaluator of the default-on-lane route. *)
Lemma pedestrian_on_lane_is_evaluated :
  obstacle_type_ (sample_obstacle 3 NORMAL PEDESTRIAN true false false 1) = PEDESTRIAN
  ∧ EvaluateObstacle sample_Evaluate sample_EvaluateEnv sample_GetName sample_manager
      (sample_obstacle 3 NORMAL PEDESTRIAN true false false 1) []
    = Ok (sample_obstacle 3 NORMAL PEDESTRIAN true false false 1,
          [mkInvocation MLPEvaluator None true]).
Proof. split; [reflexivity | vm_compute; reflexivity]. Qed.

Lemma junction_vehicle_calls_witness :
  ∃ o' log,
    EvaluateObstacle sample_Evaluate sample_EvaluateEnv sample_GetName sample_manager
      (sample_obstacle 5 CAUTION VEHICLE true true false 1) [] = Ok (o', log)
    ∧ List.length log = 2%nat.
Proof.
  destruct (junction_vehicle_calls sample_Evaluate sample_EvaluateEnv sample_GetName
              sample_manager (sample_obstacle 5 CAUTION VEHICLE true true false 1) []
              JunctionMapEvaluator JunctionMLPEvaluator)
    as (o' & log & Hrun & Hlog & _); try reflexivity.
  exists o', log. split; [exact Hrun|].
  simpl in Hlog. destruct Hlog as [_ ->]. reflexivity.
Defined.

Lemma absent_route_is_fatal_witness :
  EvaluateObstacle sample_Evaluate sample_EvaluateEnv sample_GetName
    unregistered_manager (sample_obstacle 6 NORMAL BICYCLE true false false 1) []
  = Fatal.
Proof.
  apply (absent_route_is_fatal sample_Evaluate sample_EvaluateEnv sample_GetName
           unregistered_manager (sample_obstacle 6 NORMAL BICYCLE true false false 1) []
           CYCLIST_KEEP_LANE_EVALUATOR).
  - simpl. apply list_elem_of_singleton. reflexivity.
  - reflexivity.
Defined.

Lemma history_frames_bounded_witness :
  ∃ m' r, BuildObstacleIdHistoryMap (sample_flags 1 true) (mkVehicleParam 5 2)
            (registered_containers sample_container) sample_manager = Ok m'
    ∧ obstacle_id_history_map_ m' !! 2 = Some r
    ∧ List.length (ObstacleHistory.feature r) = 10%nat
    ∧ (List.length (ObstacleHistory.feature r) <= 10)%nat.
Proof.
  destruct (history_frames_bounded (sample_flags 1 true) (mkVehicleParam 5 2)
              (registered_containers sample_container) sample_container
              mkPoseContainer sample_manager) as (m' & Hm' & Hall).
  - reflexivity.
  - reflexivity.
  - destruct (obstacle_id_history_map_ m' !! 2) as [r|] eqn:Hr.
    + destruct (Hall 2 r Hr) as (o & Ho & _ & Hone).
      assert (o = sample_obstacle 2 NORMAL VEHICLE false true false 12) as ->.
      { vm_compute in Ho. injection Ho as <-. reflexivity. }
      exists m', r. split; [exact Hm'|]. split; [exact Hr|].
      destruct (Hone eq_refl) as [Hlen Hle]. split; [exact Hlen | exact Hle].
    + exfalso. vm_compute in Hm'. injection Hm' as <-. vm_compute in Hr. discriminate.
Defined.

(** The claim C7 as it stands fails: the ego vehicle has twelve features
    and is reported among the movable ids, so its id is walked twice and its
    record holds twenty frames. *)
Lemma ego_listed_as_movable_holds_twenty_frames :
  ∃ m' r o,
    BuildObstacleIdHistoryMap (sample_flags 1 true) (mkVehicleParam 5 2)
      (registered_containers ego_listed_container) sample_manager = Ok m'
    ∧ obstacle_id_history_map_ m' !! (-1) = Some r
    ∧ GetObstacle ego_listed_container (-1) = Some o
    ∧ history_size o = 12%nat
    ∧ List.length (ObstacleHistory.feature r) = 20%nat
    ∧ List.length (ObstacleHistory.feature r) ≠ Nat.min 10 (history_size o)
    ∧ ¬ (List.length (ObstacleHistory.feature r) <= 10)%nat.
Proof.
  rewrite (BuildObstacleIdHistoryMap_defined _ _
             (registered_containers ego_listed_container) ego_listed_container
             mkPoseContainer _ eq_refl eq_refl).
  eexists.
  exists
    (ObstacleHistory.mk
       (mjoin (replicate 2
                 (frames_of (sample_flags 1 true) (mkVehicleParam 5 2)
                    (sample_obstacle (-1) NORMAL VEHICLE true false false 12))))
       (IsTrainable (sample_flags 1 true)
          (latest_feature (sample_obstacle (-1) NORMAL VEHICLE true false false 12)))),
    (sample_obstacle (-1) NORMAL VEHICLE true false false 12).
  split; [reflexivity|].
  split; [vm_compute; reflexivity|].
  split; [vm_compute; reflexivity|].
  split; [vm_compute; reflexivity|].
  split; [vm_compute; reflexivity|].
  split; [vm_compute; discriminate|].
  vm_compute. intros H. do 10 apply le_S_n in H. inversion H.
Qed.

Lemma trainable_flag_correct_witness :
  ∃ m', BuildObstacleIdHistoryMap (sample_flags 1 true) (mkVehicleParam 5 2)
          (registered_containers sample_container) sample_manager = Ok m'
    ∧ ∀ id r, obstacle_id_history_map_ m' !! id = Some r ->
        ∃ o, GetObstacle sample_container id = Some o
             ∧ (ObstacleHistory.is_trainable r = true <->
                  Feature.id (latest_feature o) ≠ -1
                  ∧ Feature.priority (latest_feature o) ≠ IGNORE
                  ∧ Feature.is_still (latest_feature o) = false
                  ∧ Feature.type (latest_feature o) = VEHICLE).
Proof.
  apply (trainable_flag_correct (sample_flags 1 true) (mkVehicleParam 5 2)
           (registered_containers sample_container) sample_container
           mkPoseContainer sample_manager); reflexivity.
Defined.

Lemma no_record_without_history_witness :
  ∃ m', BuildObstacleIdHistoryMap (sample_flags 1 true) (mkVehicleParam 5 2)
          (registered_containers sample_container) sample_manager = Ok m'
    ∧ FrameEnv.ego_history (DumpCurrentFrameEnv (sample_flags 1 true) sample_container m')
      = None.
Proof.
  destruct (no_record_without_history (sample_flags 1 true) (mkVehicleParam 5 2)
              (registered_containers sample_container) sample_container
              mkPoseContainer sample_manager (-1)) as (m' & Hm' & _ & Hego & _).
  - reflexivity.
  - reflexivity.
  - left. reflexivity.
  - exists m'. split; [exact Hm'|]. apply Hego. reflexivity.
Defined.

Lemma data_collection_forces_scanning_witness :
  vehicle_on_lane_evaluator_
    (Init 2 (mkFlags (-1) 4 1 true false 2)
       [ObstacleConf.mk (Some VEHICLE) (Some ON_LANE) (Some CRUISE_MLP_EVALUATOR)]
       sample_manager)
  = LANE_SCANNING_EVALUATOR.
Proof.
  rewrite (data_collection_forces_scanning 2 (mkFlags (-1) 4 1 true false 2)
             [ObstacleConf.mk (Some VEHICLE) (Some ON_LANE) (Some CRUISE_MLP_EVALUATOR)]
             sample_manager) by reflexivity.
  reflexivity.
Defined.

(** The claim C9 as it stands fails: in data-collection mode, a configuration
    without an entry for vehicles on lane leaves the route as it was. *)
Lemma data_collection_without_vehicle_entry :
  FLAGS_prediction_offline_mode (mkFlags (-1) 4 1 true false 2) = 2
  ∧ vehicle_on_lane_evaluator_
      (Init 2 (mkFlags (-1) 4 1 true false 2)
         [ObstacleConf.mk (Some VEHICLE) (Some IN_JUNCTION) (Some JUNCTION_MLP_EVALUATOR);
          ObstacleConf.mk (Some BICYCLE) (Some ON_LANE) (Some CYCLIST_KEEP_LANE_EVALUATOR)]
         sample_manager)
    = CRUISE_MLP_EVALUATOR
  ∧ CRUISE_MLP_EVALUATOR ≠ LANE_SCANNING_EVALUATOR.
Proof. split; [reflexivity|]. split; [vm_compute; reflexivity | discriminate]. Qed.

(** * Further properties *)

(** ** The registry *)

Lemma RegisterEvaluator_lookup (t t' : EvaluatorType) (m : EvaluatorManager) :
  GetEvaluator (RegisterEvaluator t m) t'
  = if decide (t = t') then CreateEvaluator t else GetEvaluator m t'.
Proof.
  unfold GetEvaluator, RegisterEvaluator, set_evaluators. cbn [evaluators_].
  destruct (decide (t = t')) as [->|Hne].
  - by rewrite lookup_insert_eq.
  - by rewrite lookup_insert_ne.
Qed.

Lemma registered_all (m : EvaluatorManager) (t : EvaluatorType) :
  GetEvaluator (RegisterEvaluators m) t = CreateEvaluator t.
Proof.
  unfold RegisterEvaluators. rewrite !RegisterEvaluator_lookup.
  destruct t; reflexivity.
Qed.

(** X1.  Whatever the manager held before, after [RegisterEvaluators] the
    registry answers every evaluator type with the instance of its class,
    never with a null pointer, and the five routes and the history map are
    as they were. *)
Theorem constructor_registers_every_type (m : EvaluatorManager) (t : EvaluatorType) :
  GetEvaluator (RegisterEvaluators m) t = CreateEvaluator t
  ∧ is_Some (GetEvaluator (RegisterEvaluators m) t)
  ∧ vehicle_on_lane_evaluator_ (RegisterEvaluators m) = vehicle_on_lane_evaluator_ m
  ∧ vehicle_in_junction_evaluator_ (RegisterEvaluators m)
    = vehicle_in_junction_evaluator_ m
  ∧ cyclist_on_lane_evaluator_ (RegisterEvaluators m) = cyclist_on_lane_evaluator_ m
  ∧ pedestrian_evaluator_ (RegisterEvaluators m) = pedestrian_evaluator_ m
  ∧ default_on_lane_evaluator_ (RegisterEvaluators m) = default_on_lane_evaluator_ m
  ∧ obstacle_id_history_map_ (RegisterEvaluators m) = obstacle_id_history_map_ m.
Proof.
  split; [apply registered_all|]. split.
  - rewrite registered_all. destruct t; by eexists.
  - repeat split; reflexivity.
Qed.

(** X2.  A manager whose registry was filled by [RegisterEvaluators] and
    whose routes were then read from any configuration never ends the
    process in a dispatch: every obstacle is dispatched, with one call per
    consulted route. *)
Theorem registered_manager_never_fatal
    (Evaluate : Evaluator -> Obstacle -> Obstacle * bool)
    (EvaluateEnv : Evaluator -> Obstacle -> list ObstaclePtr -> Obstacle * bool)
    (GetName : Evaluator -> string)
    (k : Z) (flags : Flags) (config : list ObstacleConf.t) (m : EvaluatorManager)
    (o : Obstacle) (dynamic_env : list ObstaclePtr) :
  ∃ o' log,
    EvaluateObstacle Evaluate EvaluateEnv GetName
      (Init k flags config (RegisterEvaluators m)) o dynamic_env = Ok (o', log)
    ∧ List.length log
      = List.length
          (routes_consulted Evaluate (Init k flags config (RegisterEvaluators m)) o).
Proof.
  apply present_routes_all_called. intros t _.
  unfold GetEvaluator. rewrite Init_keeps_registry.
  change (is_Some (GetEvaluator (RegisterEvaluators m) t)).
  rewrite registered_all. destruct t; by eexists.
Qed.

(** ** The routes read from the configuration *)

Lemma Init_entry_ineffective k flags m conf :
  effective_entry conf = false -> Init_entry k flags m conf = m.
Proof.
  unfold effective_entry, Init_entry.
  destruct conf as [[[]|] [[]|] [e|]]; simpl; try done.
Qed.

(** X3.  [Init] reads only the entries that have an obstacle type, an
    evaluator type and an obstacle status and whose type and status are a
    pair the switch handles; all the other entries can be removed from the
    configuration without changing the manager that [Init] returns. *)
Theorem Init_skips_ineffective_entries (k : Z) (flags : Flags)
    (config : list ObstacleConf.t) (m : EvaluatorManager) :
  Init k flags config m = Init k flags (List.filter effective_entry config) m.
Proof.
  unfold Init. revert m. induction config as [|conf config IH]; intros m; [done|].
  cbn [foldl List.filter]. destruct (effective_entry conf) eqn:E.
  - cbn [foldl]. apply IH.
  - rewrite Init_entry_ineffective by done. apply IH.
Qed.

(** A route that each entry either overwrites with its evaluator, when the
    entry is for [ty] and [status], or leaves alone, ends as the evaluator of
    the last such entry. *)
Lemma Init_last_wins k flags (route : EvaluatorManager -> EvaluatorType)
    (ty : PerceptionObstacle.Type_) (status : ObstacleStatus) :
  (∀ m conf,
     route (Init_entry k flags m conf)
     = if bool_decide (ObstacleConf.obstacle_type conf = Some ty)
          && bool_decide (ObstacleConf.obstacle_status conf = Some status)
       then match ObstacleConf.evaluator_type conf with
            | Some e => e
            | None => route m
            end
       else route m) ->
  ∀ config m,
    route (Init k flags config m) = default (route m) (last_declared ty status config).
Proof.
  intros Hentry config m. unfold Init, last_declared.
  assert (∀ acc m',
    route m' = default (route m) acc ->
    route (foldl (Init_entry k flags) m' config)
    = default (route m)
        (foldl (fun acc conf =>
                  if bool_decide (ObstacleConf.obstacle_type conf = Some ty)
                     && bool_decide (ObstacleConf.obstacle_status conf = Some status)
                  then match ObstacleConf.evaluator_type conf with
                       | Some e => Some e
                       | None => acc
                       end
                  else acc) acc config)) as Hgen.
  { induction config as [|conf config IH]; intros acc m' Hm'; [done|].
    cbn [foldl]. apply IH. rewrite Hentry.
    destruct (bool_decide _ && bool_decide _); [|done].
    by destruct (ObstacleConf.evaluator_type conf). }
  by apply Hgen.
Qed.

(** X4.  After [Init] the vehicle-in-junction, cyclist-on-lane and
    default-on-lane routes are each the evaluator named by the last complete
    entry of the configuration for (VEHICLE, IN_JUNCTION), (BICYCLE, ON_LANE)
    and (UNKNOWN, ON_LANE) respectively, and keep their previous value when
    the configuration has no such entry. *)
Theorem Init_last_entry_wins (k : Z) (flags : Flags)
    (config : list ObstacleConf.t) (m : EvaluatorManager) :
  vehicle_in_junction_evaluator_ (Init k flags config m)
  = default (vehicle_in_junction_evaluator_ m) (last_declared VEHICLE IN_JUNCTION config)
  ∧ cyclist_on_lane_evaluator_ (Init k flags config m)
    = default (cyclist_on_lane_evaluator_ m) (last_declared BICYCLE ON_LANE config)
  ∧ default_on_lane_evaluator_ (Init k flags config m)
    = default (default_on_lane_evaluator_ m) (last_declared UNKNOWN ON_LANE config).
Proof.
  split; [|split]; apply Init_last_wins; intros m' conf; unfold Init_entry;
    destruct conf as [[[]|] [[]|] [e|]]; simpl; try done;
    repeat case_decide; done.
Qed.

(** X5.  Outside data-collection mode the vehicle-on-lane route after [Init]
    is the evaluator named by the last complete (VEHICLE, ON_LANE) entry, and
    keeps its previous value when there is none. *)
Theorem Init_vehicle_on_lane_declared (k : Z) (flags : Flags)
    (config : list ObstacleConf.t) (m : EvaluatorManager) :
  FLAGS_prediction_offline_mode flags ≠ k ->
  vehicle_on_lane_evaluator_ (Init k flags config m)
  = default (vehicle_on_lane_evaluator_ m) (last_declared VEHICLE ON_LANE config).
Proof.
  intros Hk. apply Init_last_wins. intros m' conf. unfold Init_entry.
  destruct conf as [[[]|] [[]|] [e|]]; simpl; try done;
    repeat case_decide; done.
Qed.

Lemma Init_vehicle_on_lane_declared_witness :
  vehicle_on_lane_evaluator_
    (Init 2 (mkFlags (-1) 4 1 true false 0)
       [ObstacleConf.mk (Some VEHICLE) (Some ON_LANE) (Some COST_EVALUATOR);
        ObstacleConf.mk (Some VEHICLE) (Some ON_LANE) None;
        ObstacleConf.mk (Some VEHICLE) (Some ON_LANE) (Some MLP_EVALUATOR);
        ObstacleConf.mk (Some BICYCLE) (Some ON_LANE) (Some RNN_EVALUATOR)]
       sample_manager)
  = MLP_EVALUATOR.
Proof.
  rewrite (Init_vehicle_on_lane_declared 2 (mkFlags (-1) 4 1 true false 0))
    by (simpl; lia).
  reflexivity.
Defined.

Lemma Init_entry_pedestrian k flags m conf :
  pedestrian_evaluator_ (Init_entry k flags m conf)
  = if declares_pedestrian conf then PEDESTRIAN_INTERACTION_EVALUATOR
    else pedestrian_evaluator_ m.
Proof.
  unfold Init_entry, declares_pedestrian.
  destruct conf as [[[]|] [[]|] [e|]]; simpl; try done; repeat case_decide; done.
Qed.

(** X6.  The pedestrian route after [Init] is PEDESTRIAN_INTERACTION_EVALUATOR
    as soon as the configuration has a complete entry for pedestrians,
    whatever status and evaluator that entry names, and keeps its previous
    value otherwise; an entry for pedestrians without a status sets nothing. *)
Theorem Init_pedestrian_route_fixed (k : Z) (flags : Flags)
    (config : list ObstacleConf.t) (m : EvaluatorManager) :
  pedestrian_evaluator_ (Init k flags config m)
  = if existsb declares_pedestrian config then PEDESTRIAN_INTERACTION_EVALUATOR
    else pedestrian_evaluator_ m.
Proof.
  unfold Init. revert m. induction config as [|conf config IH]; intros m; [done|].
  cbn [foldl existsb]. rewrite IH, Init_entry_pedestrian.
  destruct (declares_pedestrian conf); simpl; [|done].
  by destruct (existsb declares_pedestrian config).
Qed.

(** ** The decision tree of the dispatch *)

Section FurtherDispatchProperties.

Variable Evaluate : Evaluator -> Obstacle -> Obstacle * bool.
Variable EvaluateEnv : Evaluator -> Obstacle -> list ObstaclePtr -> Obstacle * bool.
Variable GetName : Evaluator -> string.

(** X7.  A vehicle that is on a lane and is not taken by the junction branch
    (it has no junction feature with exits, or it is close to the junction
    exit) gets exactly one call, to the evaluator of the vehicle-on-lane
    route; the neighbours are handed over exactly when the name of that
    evaluator is LANE_SCANNING_EVALUATOR. *)
Theorem vehicle_on_lane_call (m : EvaluatorManager) (o : Obstacle)
    (dynamic_env : list ObstaclePtr) (e : Evaluator) :
  obstacle_type_ o = VEHICLE ->
  HasJunctionFeatureWithExits o && negb (IsCloseToJunctionExit o) = false ->
  IsOnLane o = true ->
  GetEvaluator m (vehicle_on_lane_evaluator_ m) = Some e ->
  EvaluateObstacle Evaluate EvaluateEnv GetName m o dynamic_env
  = if String.eqb (GetName e) "LANE_SCANNING_EVALUATOR" then
      Ok ((EvaluateEnv e o dynamic_env).1,
          [mkInvocation e (Some dynamic_env) (EvaluateEnv e o dynamic_env).2])
    else
      Ok ((Evaluate e o).1, [mkInvocation e None (Evaluate e o).2]).
Proof.
  intros Hty Hj Hl He. unfold EvaluateObstacle. rewrite Hty, Hj, Hl, He. simpl.
  destruct (String.eqb _ _); by rewrite ?call_unfold, ?call_env_unfold.
Qed.

(** X8.  An obstacle that is off lane and is not a vehicle taken by the
    junction branch is left alone: no evaluator is called, the obstacle is
    unchanged, and the registry is not even looked at, so the dispatch
    returns normally with an empty registry too. *)
Theorem off_lane_is_left_alone (m : EvaluatorManager) (o : Obstacle)
    (dynamic_env : list ObstaclePtr) :
  IsOnLane o = false ->
  (obstacle_type_ o = VEHICLE ->
   HasJunctionFeatureWithExits o && negb (IsCloseToJunctionExit o) = false) ->
  EvaluateObstacle Evaluate EvaluateEnv GetName m o dynamic_env = Ok (o, []).
Proof.
  intros Hl Hj. unfold EvaluateObstacle. rewrite Hl.
  destruct (obstacle_type_ o); try done. by rewrite Hj.
Qed.

Lemma dispatch_log_parts (m : EvaluatorManager) (o o' : Obstacle)
    (dynamic_env : list ObstaclePtr) (log : list Invocation) :
  EvaluateObstacle Evaluate EvaluateEnv GetName m o dynamic_env = Ok (o', log) ->
  (List.length log <= 2)%nat
  ∧ (∀ i, i ∈ log ->
       ∃ t, t ∈ routes_consulted Evaluate m o
            ∧ GetEvaluator m t = Some (inv_evaluator i))
  ∧ (List.length log = 2%nat ->
       obstacle_type_ o = VEHICLE
       ∧ Feature.priority (latest_feature o) = CAUTION
       ∧ ∃ i, log !! 0%nat = Some i ∧ inv_produced i = false)
  ∧ (∀ i d, i ∈ log -> inv_dynamic_env i = Some d ->
       d = dynamic_env ∧ log = [i] ∧ obstacle_type_ o = VEHICLE
       ∧ GetName (inv_evaluator i) = "LANE_SCANNING_EVALUATOR").
Proof.
  unfold EvaluateObstacle, routes_consulted. intros H.
  destruct (obstacle_type_ o) eqn:Hty;
    repeat first
      [ discriminate H
      | match type of H with
        | context [call _ _ _ _] => rewrite call_unfold in H; simpl in H
        | context [call_env _ _ _ _ _] => rewrite call_env_unfold in H; simpl in H
        | context [CHECK_NOTNULL (GetEvaluator m ?t)] =>
            destruct (GetEvaluator m t) eqn:?; simpl in H
        | context [decide ?P] => destruct (decide P); simpl in H
        | context [String.eqb ?a ?b] => destruct (String.eqb_spec a b); simpl in H
        | context [if ?b then _ else _] => destruct b eqn:?; simpl in H
        end ];
    injection H as _ <-;
    (split; [simpl; lia|]);
    (split; [|split]);
    intros; simpl in *;
    repeat match goal with
      | Hi : _ ∈ [] |- _ => by apply elem_of_nil in Hi
      | Hi : _ ∈ [_] |- _ => apply list_elem_of_singleton in Hi; subst
      | Hi : _ ∈ _ :: _ |- _ => apply elem_of_cons in Hi as [->|Hi]
      end;
    simpl in *; try done; try lia;
    first [ by eexists; split; [by left|]
          | by eexists; split; [right; by left|]
          | by (split; [done|]; split; [done|]; eexists)
          | by match goal with Hd : Some _ = Some _ |- _ =>
                 injection Hd as <- end
          | idtac ].
Qed.

(** X9.  Whenever a dispatch returns: at most two calls were made; every
    evaluator called is the registered instance of a route consulted for
    that obstacle; two calls happen only for a CAUTION vehicle in the
    junction branch whose first call returned false; and the neighbours are
    handed over only in the single call made for a vehicle to an evaluator
    named LANE_SCANNING_EVALUATOR. *)
Theorem dispatch_log_shape (m : EvaluatorManager) (o o' : Obstacle)
    (dynamic_env : list ObstaclePtr) (log : list Invocation) :
  EvaluateObstacle Evaluate EvaluateEnv GetName m o dynamic_env = Ok (o', log) ->
  (List.length log <= 2)%nat
  ∧ (∀ i, i ∈ log ->
       ∃ t, t ∈ routes_consulted Evaluate m o
            ∧ GetEvaluator m t = Some (inv_evaluator i))
  ∧ (List.length log = 2%nat ->
       obstacle_type_ o = VEHICLE
       ∧ Feature.priority (latest_feature o) = CAUTION
       ∧ ∃ i, log !! 0%nat = Some i ∧ inv_produced i = false)
  ∧ (∀ i d, i ∈ log -> inv_dynamic_env i = Some d ->
       d = dynamic_env ∧ log = [i] ∧ obstacle_type_ o = VEHICLE
       ∧ GetName (inv_evaluator i) = "LANE_SCANNING_EVALUATOR").
Proof. apply dispatch_log_parts. Qed.

(** X22.  The neighbours matter to a dispatch only on the path of a vehicle
    on lane whose evaluator is named LANE_SCANNING_EVALUATOR: for every other
    obstacle the one-argument overload, which passes no neighbours, gives the
    same result as the dispatch with any list of neighbours. *)
Theorem neighbours_matter_for_lane_scanning_only (m : EvaluatorManager) (o : Obstacle)
    (dynamic_env : list ObstaclePtr) :
  (∀ e, obstacle_type_ o = VEHICLE ->
        HasJunctionFeatureWithExits o && negb (IsCloseToJunctionExit o) = false ->
        IsOnLane o = true ->
        GetEvaluator m (vehicle_on_lane_evaluator_ m) = Some e ->
        GetName e ≠ "LANE_SCANNING_EVALUATOR") ->
  EvaluateObstacle Evaluate EvaluateEnv GetName m o dynamic_env
  = EvaluateObstacle_1 Evaluate EvaluateEnv GetName m o.
Proof.
  intros Hname. unfold EvaluateObstacle_1, EvaluateObstacle.
  destruct (obstacle_type_ o); try done.
  destruct (HasJunctionFeatureWithExits o && negb (IsCloseToJunctionExit o)); [done|].
  destruct (IsOnLane o); [|done].
  destruct (GetEvaluator m (vehicle_on_lane_evaluator_ m)) as [e|]; [|done]. simpl.
  specialize (Hname e eq_refl eq_refl eq_refl eq_refl).
  by destruct (String.eqb_spec (GetName e) "LANE_SCANNING_EVALUATOR").
Qed.

End FurtherDispatchProperties.

Lemma vehicle_on_lane_call_witness :
  EvaluateObstacle sample_Evaluate sample_EvaluateEnv sample_GetName
    (Init 2 (mkFlags (-1) 4 1 true false 2)
       [ObstacleConf.mk (Some VEHICLE) (Some ON_LANE) (Some COST_EVALUATOR)]
       sample_manager)
    (sample_obstacle 1 CAUTION VEHICLE true true true 3) [7; 8]
  = Ok (sample_obstacle 1 CAUTION VEHICLE true true true 3,
        [mkInvocation LaneScanningEvaluator (Some [7; 8]) true]).
Proof.
  rewrite (vehicle_on_lane_call sample_Evaluate sample_EvaluateEnv sample_GetName
             _ _ _ LaneScanningEvaluator) by reflexivity.
  reflexivity.
Defined.

Lemma off_lane_is_left_alone_witness :
  EvaluateObstacle sample_Evaluate sample_EvaluateEnv sample_GetName
    unregistered_manager (sample_obstacle 1 CAUTION VEHICLE false true true 3) []
  = Ok (sample_obstacle 1 CAUTION VEHICLE false true true 3, []).
Proof.
  apply (off_lane_is_left_alone sample_Evaluate sample_EvaluateEnv sample_GetName
           unregistered_manager (sample_obstacle 1 CAUTION VEHICLE false true true 3) []);
    reflexivity.
Defined.

Lemma dispatch_log_shape_witness :
  ∃ o' log,
    EvaluateObstacle sample_Evaluate sample_EvaluateEnv sample_GetName sample_manager
      (sample_obstacle 5 CAUTION VEHICLE true true false 1) [] = Ok (o', log)
    ∧ (List.length log <= 2)%nat.
Proof.
  eexists _, _. split; [vm_compute; reflexivity|].
  apply (dispatch_log_shape sample_Evaluate sample_EvaluateEnv sample_GetName
           sample_manager (sample_obstacle 5 CAUTION VEHICLE true true false 1)
           (sample_obstacle 5 CAUTION VEHICLE true true false 1) []).
  vm_compute. reflexivity.
Defined.

(** ** The buckets *)

Lemma push_back_at_total k p m :
  push_back_at k p m !!! k = (m !!! k) ++ [p].
Proof. unfold push_back_at. by rewrite lookup_total_insert_eq. Qed.

Lemma push_back_at_total_ne k b p m :
  k ≠ b -> push_back_at k p m !!! b = m !!! b.
Proof. intros. unfold push_back_at. by rewrite lookup_total_insert_ne. Qed.

Lemma group_fold_bucket flags c ids : ∀ m0 b,
  foldl (group_step flags c) m0 ids !! b
  = match List.filter (enters_bucket flags c b) ids with
    | [] => m0 !! b
    | l => Some ((m0 !!! b) ++ l)
    end.
Proof.
  induction ids as [|id ids IH]; intros m0 b; [done|].
  cbn [foldl List.filter]. rewrite IH. unfold group_step, enters_bucket at 2.
  destruct (partition_key c id) as [q|]; [|done].
  destruct (decide (bucket_of flags id q = b)) as [<-|Hne].
  - rewrite bool_decide_eq_true_2 by done. rewrite push_back_at_total.
    destruct (List.filter _ ids) as [|x l].
    + unfold push_back_at. by rewrite lookup_insert_eq.
    + by rewrite <- app_assoc.
  - rewrite bool_decide_eq_false_2 by done.
    rewrite push_back_at_total_ne by done.
    unfold push_back_at. by rewrite lookup_insert_ne.
Qed.

Lemma bucket_contents (flags : Flags) (c : ObstaclesContainer)
    (ids : list Z) (m : gmap Z (list ObstaclePtr)) (b : Z) :
  group_all flags c ids = Ok m ->
  m !! b = match List.filter (enters_bucket flags c b) ids with
           | [] => None
           | l => Some l
           end.
Proof.
  intros Hm. apply group_all_Ok in Hm as ->. rewrite group_fold_bucket.
  rewrite lookup_empty, lookup_total_empty. done.
Qed.

(** X10.  When the grouping loop returns, the list stored under a key is the
    list of the walked ids that enter the partition under that key, in the
    order in which they were walked and as often as they were listed; a key
    under which no id enters has no entry at all. *)
Theorem bucket_contents_in_order (flags : Flags) (c : ObstaclesContainer)
    (ids : list Z) (m : gmap Z (list ObstaclePtr)) (b : Z) :
  group_all flags c ids = Ok m ->
  m !! b = match List.filter (enters_bucket flags c b) ids with
           | [] => None
           | l => Some l
           end.
Proof. apply bucket_contents. Qed.

Lemma bucket_contents_in_order_witness :
  ∃ m, group_all (sample_flags 1 true) sample_container [4; 2; 1; 2] = Ok m
       ∧ m !! 3 = Some [2; 2].
Proof.
  eexists. split; [vm_compute; reflexivity|].
  rewrite (bucket_contents_in_order (sample_flags 1 true) sample_container [4; 2; 1; 2]);
    [reflexivity | vm_compute; reflexivity].
Defined.

(** X11.  With at least one caution slot and one normal slot, and ids that
    are not negative, the grouping loop returns a map in which every CAUTION
    obstacle sits under a key in [0, Cc) and every other obstacle under a key
    in [Cc, total), so that the map has at most [FLAGS_max_thread_num]
    buckets. *)
Theorem nonnegative_ids_stay_in_range (flags : Flags) (c : ObstaclesContainer)
    (ids : list Z) :
  slots_ok flags ->
  (∀ id, id ∈ ids -> 0 <= id) ->
  ∃ m, group_all flags c ids = Ok m
    ∧ (∀ b l p, m !! b = Some l -> p ∈ l ->
         ∃ q, partition_key c p = Some q
              ∧ if decide (q = CAUTION)
                then 0 <= b < FLAGS_max_caution_thread_num flags
                else FLAGS_max_caution_thread_num flags <= b
                     < FLAGS_max_thread_num flags)
    ∧ (size m <= Z.to_nat (FLAGS_max_thread_num flags))%nat.
Proof.
  intros Hok Hpos. pose proof Hok as (Hc & Hn & _).
  destruct (group_all flags c ids) as [m| |] eqn:Hm;
    try (rewrite group_all_defined in Hm by done; discriminate).
  exists m. split; [done|].
  destruct (partition_parts flags c ids m Hm) as [Hsound _].
  assert (∀ b l p, m !! b = Some l -> p ∈ l ->
            ∃ q, partition_key c p = Some q
                 ∧ if decide (q = CAUTION)
                   then 0 <= b < FLAGS_max_caution_thread_num flags
                   else FLAGS_max_caution_thread_num flags <= b
                        < FLAGS_max_thread_num flags) as Hrange.
  { intros b l p Hl Hp. destruct (Hsound b l p Hl Hp) as (Hin & q & Hq & ->).
    exists q. split; [done|].
    destruct (bucket_of_range_nonneg flags p Hok (Hpos p Hin)) as [Hca Hno].
    destruct (decide (q = CAUTION)) as [->|Hq']; [done|].
    destruct q; done. }
  split; [done|].
  rewrite <- (size_dom (D := gset Z)).
  rewrite <- (length_seqZ 0 (FLAGS_max_thread_num flags)).
  rewrite <- (size_list_to_set (C := gset Z)) by apply NoDup_seqZ.
  apply subseteq_size. intros b Hb. apply elem_of_dom in Hb as [l Hl].
  apply elem_of_list_to_set, elem_of_seqZ.
  pose proof (bucket_contents flags c ids m b Hm) as Hcontent.
  unfold ObstaclePtr in *.
  destruct (List.filter (enters_bucket flags c b) ids) as [|p l'] eqn:Hf;
    [congruence|].
  assert (p ∈ p :: l') as Hp by left.
  destruct (Hrange b _ p Hcontent Hp) as (q & _ & Hr).
  destruct (decide (q = CAUTION)); lia.
Qed.

Lemma nonnegative_ids_stay_in_range_witness :
  ∃ m, group_all (sample_flags 1 true) sample_container [1; 2; 3; 4] = Ok m
       ∧ (size m <= 4)%nat.
Proof.
  destruct (nonnegative_ids_stay_in_range (sample_flags 1 true) sample_container
              [1; 2; 3; 4]) as (m & Hm & _ & Hsize).
  - unfold slots_ok, int_max. simpl. lia.
  - intros id Hid. apply list_elem_of_In in Hid. simpl in Hid. lia.
  - exists m. split; [exact Hm | exact Hsize].
Defined.

Lemma bucket_checked_not_Fatal flags id q : bucket_checked flags id q ≠ Fatal.
Proof.
  assert (∀ a b, int_rem a b ≠ Fatal) as Hrem.
  { intros a b. unfold int_rem. destruct (b =? 0); [done|].
    by destruct ((a =? int_min) && (b =? -1)). }
  assert (∀ a b, int_add a b ≠ Fatal) as Hadd.
  { intros a b. unfold int_add. by destruct (in_int (a + b)). }
  unfold bucket_checked. destruct q; [apply Hrem| |].
  all: unfold int_sub; destruct (in_int _); [|done]; rewrite bind_Ok;
    destruct (int_rem id _) as [r| |] eqn:Er; [|by apply Hrem in Er|done];
    rewrite bind_Ok; apply Hadd.
Qed.

Lemma GroupObstaclesByObstacleId_not_Fatal flags c id m :
  GroupObstaclesByObstacleId flags id c m ≠ Fatal.
Proof.
  rewrite GroupObstaclesByObstacleId_by_key.
  destruct (partition_key c id) as [q|]; [|done].
  pose proof (bucket_checked_not_Fatal flags id q).
  by destruct (bucket_checked flags id q).
Qed.

Lemma for_each_Undefined {A S : Type} (body : S -> A -> result S) (l : list A) (a : A) :
  (∀ s x, body s x ≠ Fatal) ->
  a ∈ l -> (∀ s, body s a = Undefined) ->
  ∀ s, for_each body l s = Undefined.
Proof.
  intros Hnf Hin Ha. induction l as [|x l IH]; intros s.
  - by apply elem_of_nil in Hin.
  - rewrite for_each_cons. apply elem_of_cons in Hin as [<-|Hin].
    + by rewrite Ha.
    + pose proof (Hnf s x). destruct (body s x) as [s'| |]; try done.
      rewrite bind_Ok. by apply IH.
Qed.

(** X12.  The remainder is taken by the slot count without any check: as
    soon as a listed CAUTION obstacle enters the partition while there is no
    caution slot, or a listed obstacle of another priority enters while all
    the slots are caution slots, the grouping divides by zero and its
    behaviour is undefined. *)
Theorem grouping_divides_by_zero (flags : Flags) (c : ObstaclesContainer)
    (ids : list Z) (id : Z) (q : Priority) :
  id ∈ ids ->
  partition_key c id = Some q ->
  (q = CAUTION ∧ FLAGS_max_caution_thread_num flags = 0)
  ∨ (q ≠ CAUTION
     ∧ FLAGS_max_thread_num flags = FLAGS_max_caution_thread_num flags) ->
  group_all flags c ids = Undefined.
Proof.
  intros Hin Hq Hzero. unfold group_all.
  apply (for_each_Undefined _ ids id); [|done|].
  - intros m x. apply GroupObstaclesByObstacleId_not_Fatal.
  - intros m. rewrite GroupObstaclesByObstacleId_by_key, Hq.
    unfold bucket_checked. destruct Hzero as [[-> Hz]|[Hne Hz]].
    + by rewrite Hz.
    + rewrite Hz. unfold int_sub. rewrite Z.sub_diag. by destruct q.
Qed.

Lemma grouping_divides_by_zero_witness :
  group_all (mkFlags (-1) 2 2 true false 0) sample_container [1; 2; 3; 4] = Undefined.
Proof.
  apply (grouping_divides_by_zero (mkFlags (-1) 2 2 true false 0) sample_container
           [1; 2; 3; 4] 2 NORMAL).
  - apply list_elem_of_In. simpl. tauto.
  - reflexivity.
  - right. split; [discriminate | reflexivity].
Defined.

(** The pointers of all the buckets, up to their order. *)
Lemma push_back_at_all k p (m : gmap Z (list ObstaclePtr)) :
  mjoin ((map_to_list (push_back_at k p m)).*2) ≡ₚ mjoin ((map_to_list m).*2) ++ [p].
Proof.
  unfold push_back_at. rewrite lookup_total_alt.
  destruct (m !! k) as [l|] eqn:Hl; simpl.
  - rewrite <- insert_delete_eq.
    rewrite map_to_list_insert by apply lookup_delete_eq.
    rewrite <- (map_to_list_delete m k l Hl). simpl.
    rewrite <- !app_assoc. apply Permutation_app_head, Permutation_app_comm.
  - rewrite map_to_list_insert by done. simpl. apply Permutation_cons_append.
Qed.

Lemma group_fold_all flags c ids : ∀ m0,
  mjoin ((map_to_list (foldl (group_step flags c) m0 ids)).*2)
  ≡ₚ mjoin ((map_to_list m0).*2) ++ List.filter (enters c) ids.
Proof.
  induction ids as [|id ids IH]; intros m0.
  - simpl. by rewrite app_nil_r.
  - cbn [foldl List.filter]. rewrite IH. unfold group_step, enters at 2.
    destruct (partition_key c id) as [q|].
    + rewrite bool_decide_eq_true_2 by by eexists.
      rewrite push_back_at_all. by rewrite <- app_assoc.
    + rewrite bool_decide_eq_false_2; [done|]. by intros [? ?].
Qed.

(** ** The cycle *)

Section FurtherRunProperties.

Variable Evaluate : Evaluator -> Obstacle -> Obstacle * bool.
Variable EvaluateEnv : Evaluator -> Obstacle -> list ObstaclePtr -> Obstacle * bool.
Variable GetName : Evaluator -> string.

Lemma bucket_loop_log m env worker l : ∀ (st st' : RunState),
  for_each (evaluate_ptr Evaluate EvaluateEnv GetName m worker env) l st = Ok st' ->
  ∃ ds, st'.2 = st.2 ++ ds ∧ d_obstacle <$> ds = l
        ∧ Forall (fun d => d_worker d = worker) ds.
Proof.
  induction l as [|p l IH]; intros st st' Hrun.
  - injection Hrun as <-. exists []. by rewrite app_nil_r.
  - rewrite for_each_cons in Hrun.
    destruct (evaluate_ptr _ _ _ m worker env st p) as [st1| |] eqn:E; try done.
    rewrite bind_Ok in Hrun. apply IH in Hrun as (ds & -> & Hobs & Hw).
    apply evaluate_ptr_Ok in E as (o1 & o' & lg & _ & _ & ->). cbn [snd].
    exists (mkDispatched worker p lg :: ds). rewrite <- app_assoc.
    split; [done|]. split; [by rewrite fmap_cons, Hobs|]. by constructor.
Qed.

Lemma buckets_loop_log m env (bl : list (Z * list ObstaclePtr)) : ∀ (st st' : RunState),
  for_each (run_bucket Evaluate EvaluateEnv GetName m env) bl st = Ok st' ->
  ∃ ds, st'.2 = st.2 ++ ds
        ∧ Forall (fun d => ∃ b l, (b, l) ∈ bl ∧ d_worker d = Some b ∧ d_obstacle d ∈ l) ds.
Proof.
  induction bl as [|[b l] bl IH]; intros st st' Hrun.
  - injection Hrun as <-. exists []. by rewrite app_nil_r.
  - rewrite for_each_cons in Hrun.
    destruct (run_bucket _ _ _ m env st (b, l)) as [st1| |] eqn:E; try done.
    rewrite bind_Ok in Hrun. apply IH in Hrun as (ds & -> & Hds).
    unfold run_bucket in E. cbn [fst snd] in E.
    apply bucket_loop_log in E as (ds1 & -> & Hobs & Hw).
    exists (ds1 ++ ds). rewrite <- app_assoc. split; [done|].
    apply Forall_app. split.
    + apply Forall_forall. intros d Hd. exists b, l. split; [by left|].
      split; [by eapply Forall_forall in Hw|].
      rewrite <- Hobs. apply list_elem_of_fmap. by exists d.
    + eapply Forall_impl; [exact Hds|]. intros d (b' & l' & Hin & ?).
      exists b', l'. split; [by right|done].
Qed.

(** X13.  In multi-thread mode, when the dispatching part of [Run] returns,
    the obstacles dispatched are the considered ids that enter the partition,
    each as often as it is listed, and each was dispatched by the worker of
    the bucket computed from its id and priority. *)
Theorem multi_thread_dispatch_by_bucket (flags : Flags) (m : EvaluatorManager)
    (c : ObstaclesContainer) (st : RunState) :
  FLAGS_enable_multi_thread flags = true ->
  Run_dispatch Evaluate EvaluateEnv GetName flags m c = Ok st ->
  d_obstacle <$> st.2 ≡ₚ List.filter (enters c) (curr_frame_considered_obstacle_ids c)
  ∧ ∀ d, d ∈ st.2 ->
      ∃ q, partition_key c (d_obstacle d) = Some q
           ∧ d_worker d = Some (bucket_of flags (d_obstacle d) q).
Proof.
  intros Hmt Hrun. unfold Run_dispatch in Hrun. rewrite Hmt in Hrun.
  destruct (group_all flags c (curr_frame_considered_obstacle_ids c)) as [idm| |] eqn:Hidm;
    try done.
  rewrite bind_Ok in Hrun. unfold ForEach_buckets in Hrun. split.
  - apply buckets_loop in Hrun. rewrite Hrun. cbn [snd fmap list_fmap app].
    apply group_all_Ok in Hidm as ->. rewrite group_fold_all.
    by rewrite map_to_list_empty.
  - destruct (partition_parts flags c _ idm Hidm) as [Hsound _].
    apply buckets_loop_log in Hrun as (ds & -> & Hds). cbn [snd app].
    intros d Hd. eapply Forall_forall in Hds as (b & l & Hbl & Hw & Hp); [|exact Hd].
    apply elem_of_map_to_list in Hbl.
    destruct (Hsound b l _ Hbl Hp) as (_ & q & Hq & ->). by exists q.
Qed.

Lemma single_thread_loop_workers m env ids : ∀ (st st' : RunState),
  for_each (run_single_body Evaluate EvaluateEnv GetName m env) ids st = Ok st' ->
  Forall (fun d => d_worker d = None) st.2 ->
  Forall (fun d => d_worker d = None) st'.2.
Proof.
  induction ids as [|id ids IH]; intros st st' Hrun Hst.
  - by injection Hrun as <-.
  - rewrite for_each_cons, run_single_body_keeps in Hrun.
    destruct (single_thread_keeps _ id).
    + destruct (evaluate_ptr _ _ _ m None env st id) as [st1| |] eqn:E; try done.
      rewrite bind_Ok in Hrun. apply (IH _ _ Hrun).
      apply evaluate_ptr_Ok in E as (o1 & o' & lg & _ & _ & ->). cbn [snd].
      apply Forall_app. split; [done|]. by constructor.
    + rewrite bind_Ok in Hrun. by apply (IH _ _ Hrun).
Qed.

(** X14.  In single-thread mode, with each considered id listed once, when
    the dispatching part of [Run] returns, the obstacles dispatched are, in
    the order of the list, the ids that are not negative and whose obstacle
    is present and not still, whatever their priority; none of them is
    attributed to a worker bucket. *)
Theorem single_thread_dispatch_in_order (flags : Flags) (m : EvaluatorManager)
    (c : ObstaclesContainer) (st : RunState) :
  FLAGS_enable_multi_thread flags = false ->
  NoDup (curr_frame_considered_obstacle_ids c) ->
  Run_dispatch Evaluate EvaluateEnv GetName flags m c = Ok st ->
  d_obstacle <$> st.2
  = List.filter (single_thread_keeps c) (curr_frame_considered_obstacle_ids c)
  ∧ ∀ d, d ∈ st.2 -> d_worker d = None.
Proof.
  intros Hmt Hnd Hrun. split.
  - by apply (single_thread_dispatched Evaluate EvaluateEnv GetName flags m).
  - unfold Run_dispatch in Hrun. rewrite Hmt in Hrun.
    apply single_thread_loop_workers in Hrun; [|by constructor].
    intros d Hd. by eapply Forall_forall in Hrun.
Qed.

Lemma for_each_Ok_invariant {A S : Type} (body : S -> A -> result S) (I : S -> Prop)
    (l : list A) :
  (∀ s a, a ∈ l -> I s -> ∃ s', body s a = Ok s' ∧ I s') ->
  ∀ s, I s -> ∃ s', for_each body l s = Ok s' ∧ I s'.
Proof.
  induction l as [|a l IH]; intros Hbody s Hs.
  - by exists s.
  - rewrite for_each_cons.
    destruct (Hbody s a ltac:(by left) Hs) as (s1 & -> & Hs1). rewrite bind_Ok.
    apply IH; [|done]. intros s2 a2 Ha2. apply Hbody. by right.
Qed.

Lemma evaluate_ptr_defined m worker env (st : RunState) p :
  (∀ t, is_Some (GetEvaluator m t)) ->
  is_Some (st.1 !! p) ->
  ∃ st', evaluate_ptr Evaluate EvaluateEnv GetName m worker env st p = Ok st'
         ∧ ∀ p', is_Some (st.1 !! p') -> is_Some (st'.1 !! p').
Proof.
  intros Hreg [o Ho]. unfold evaluate_ptr. rewrite Ho.
  destruct (present_routes_all_called Evaluate EvaluateEnv GetName m o env)
    as (o' & log & -> & _); [by intros t _|].
  rewrite bind_Ok. eexists. split; [done|]. cbn [fst].
  intros p' Hp'. destruct (decide (p = p')) as [->|Hne].
  - rewrite lookup_insert_eq. by eexists.
  - by rewrite lookup_insert_ne.
Qed.

Lemma Run_dispatch_defined flags m c :
  (∀ t, is_Some (GetEvaluator m t)) ->
  (FLAGS_enable_multi_thread flags = true -> slots_ok flags) ->
  ∃ st, Run_dispatch Evaluate EvaluateEnv GetName flags m c = Ok st.
Proof.
  intros Hreg Hslots. unfold Run_dispatch.
  set (I := fun st : RunState => ∀ p, is_Some (obstacles c !! p) -> is_Some (st.1 !! p)).
  destruct (FLAGS_enable_multi_thread flags).
  - rewrite group_all_defined by auto. rewrite bind_Ok.
    destruct (partition_parts flags c (curr_frame_considered_obstacle_ids c) _
                (group_all_defined flags c _ (Hslots eq_refl))) as [Hsound _].
    unfold ForEach_buckets.
    destruct (for_each_Ok_invariant
                (run_bucket Evaluate EvaluateEnv GetName m []) I
                (map_to_list (foldl (group_step flags c) ∅
                                (curr_frame_considered_obstacle_ids c))))
      with (s := (obstacles c, @nil Dispatched)) as (st & Hst & _).
    + intros st [b l] Hbl Hst. apply elem_of_map_to_list in Hbl.
      unfold run_bucket. cbn [fst snd].
      apply for_each_Ok_invariant; [|done].
      intros st1 p Hp Hst1.
      destruct (Hsound b l p Hbl Hp) as (_ & q & Hq & _).
      destruct (evaluate_ptr_defined m (Some b) [] st1 p Hreg) as (st2 & Hst2 & Hdom).
      * apply Hst1. unfold partition_key, GetObstacle in Hq.
        unfold ObstaclePtr in *.
        destruct (obstacles c !! p); [by eexists|done].
      * exists st2. split; [done|]. intros p' Hp'. by apply Hdom, Hst1.
    + by intros p Hp.
    + by exists st.
  - destruct (for_each_Ok_invariant
                (run_single_body Evaluate EvaluateEnv GetName m []) (fun _ => True)
                (curr_frame_considered_obstacle_ids c))
      with (s := (obstacles c, @nil Dispatched)) as (st & Hst & _); [|done|by exists st].
    intros st id _ _. rewrite run_single_body_keeps.
    destruct (single_thread_keeps _ id) eqn:Hk; [|by exists st].
    destruct (evaluate_ptr_defined m None [] st id Hreg) as (st2 & Hst2 & _).
    + unfold single_thread_keeps, GetObstacle in Hk. cbn [obstacles] in Hk.
      apply andb_true_iff in Hk as [_ Hk].
      destruct (st.1 !! id) as [o|] eqn:E; [exists o; exact E|done].
    + by exists st2.
Qed.

(** X15.  A cycle needs the obstacles container, and also the pose
    container when it builds the snapshot (semantic map enabled, or
    frame-dump mode).  When a container it needs is not registered, [Run]
    ends the process.  When they are registered, every evaluator type is
    registered, and the slot counts leave at least one caution slot and one
    normal slot when the multi-thread mode is on, the cycle runs to its end:
    [Run] neither ends the process nor meets undefined arithmetic, whatever
    the obstacles, the configuration read by [Init] and the operating mode. *)
Theorem Run_completes (kDumpFrameEnv : Z) (flags : Flags) (vehicle_param : VehicleParam)
    (containers : ContainerManager) (m : EvaluatorManager) :
  (¬ (is_Some (GetContainer_PERCEPTION_OBSTACLES containers)
      ∧ (FLAGS_enable_semantic_map flags = true
         ∨ FLAGS_prediction_offline_mode flags = kDumpFrameEnv ->
         is_Some (GetContainer_LOCALIZATION containers))) ->
   Run Evaluate EvaluateEnv GetName kDumpFrameEnv flags vehicle_param containers m
   = Fatal)
  ∧ ((∀ t, is_Some (GetEvaluator m t)) ->
     (FLAGS_enable_multi_thread flags = true -> slots_ok flags) ->
     is_Some (GetContainer_PERCEPTION_OBSTACLES containers) ->
     (FLAGS_enable_semantic_map flags = true
      ∨ FLAGS_prediction_offline_mode flags = kDumpFrameEnv ->
      is_Some (GetContainer_LOCALIZATION containers)) ->
     ∃ out, Run Evaluate EvaluateEnv GetName kDumpFrameEnv flags vehicle_param
              containers m = Ok out).
Proof.
  assert (FLAGS_enable_semantic_map flags
          || bool_decide (FLAGS_prediction_offline_mode flags = kDumpFrameEnv) = true
          <-> FLAGS_enable_semantic_map flags = true
              ∨ FLAGS_prediction_offline_mode flags = kDumpFrameEnv) as Hsnap.
  { rewrite orb_true_iff, bool_decide_eq_true. done. }
  unfold Run. split.
  - intros Hnot.
    destruct (GetContainer_PERCEPTION_OBSTACLES containers) as [c|] eqn:Hc; [|done].
    cbn [CHECK_NOTNULL]. rewrite bind_Ok.
    destruct (FLAGS_enable_semantic_map flags || bool_decide _) eqn:Hs.
    + destruct (GetContainer_LOCALIZATION containers) as [pose|] eqn:Hp.
      * exfalso. apply Hnot. split; by eexists.
      * rewrite BuildObstacleIdHistoryMap_Fatal by by right. done.
    + exfalso. apply Hnot. split; [by eexists|].
      intros H. apply Hsnap in H. congruence.
  - intros Hreg Hslots [c Hc] Hpose. rewrite Hc. cbn [CHECK_NOTNULL]. rewrite bind_Ok.
    destruct (FLAGS_enable_semantic_map flags || bool_decide _) eqn:Hs.
    + destruct Hpose as [pose Hp]; [by apply Hsnap|].
      rewrite (BuildObstacleIdHistoryMap_defined _ _ _ c pose _ Hc Hp), bind_Ok.
      destruct (decide _); [by eexists|].
      destruct (Run_dispatch_defined flags
                  (set_history_map
                     (foldl (build_step flags vehicle_param c) ∅
                        (curr_frame_movable_obstacle_ids c ++ [FLAGS_ego_vehicle_id flags]))
                     m) c) as (st & ->); [done|done|].
      rewrite bind_Ok. by eexists.
    + destruct (Run_dispatch_defined flags m c Hreg Hslots) as (st & ->).
      rewrite bind_Ok. by eexists.
Qed.

(** X16.  In frame-dump mode, with the obstacles container and the pose
    container registered, a cycle builds the snapshot, hands the frame
    environment to the sink and stops there: no obstacle is dispatched, the
    obstacles are left as they were, the semantic map is not run, and the
    cycle returns normally even with an empty registry or unusable slot
    counts. *)
Theorem Run_frame_dump_only (kDumpFrameEnv : Z) (flags : Flags)
    (vehicle_param : VehicleParam) (containers : ContainerManager)
    (c : ObstaclesContainer) (ego_pose_container : PoseContainer)
    (m : EvaluatorManager) :
  GetContainer_PERCEPTION_OBSTACLES containers = Some c ->
  GetContainer_LOCALIZATION containers = Some ego_pose_container ->
  FLAGS_prediction_offline_mode flags = kDumpFrameEnv ->
  ∃ m', BuildObstacleIdHistoryMap flags vehicle_param containers m = Ok m'
    ∧ Run Evaluate EvaluateEnv GetName kDumpFrameEnv flags vehicle_param containers m
      = Ok (mkRunOutput m' (Some (DumpCurrentFrameEnv flags c m')) None (obstacles c) []).
Proof.
  intros Hc Hp Hk. unfold Run.
  rewrite (BuildObstacleIdHistoryMap_defined _ _ _ c ego_pose_container _ Hc Hp).
  eexists. split; [done|].
  rewrite Hc. cbn [CHECK_NOTNULL]. rewrite bind_Ok.
  rewrite (bool_decide_eq_true_2 _ Hk), orb_true_r, bind_Ok.
  by rewrite decide_True.
Qed.

End FurtherRunProperties.

Lemma multi_thread_dispatch_by_bucket_witness :
  ∃ st, Run_dispatch sample_Evaluate sample_EvaluateEnv sample_GetName
          (sample_flags 1 true) sample_manager sample_container = Ok st
        ∧ d_obstacle <$> st.2 ≡ₚ [1; 2; 3].
Proof.
  destruct (Run_dispatch sample_Evaluate sample_EvaluateEnv sample_GetName
              (sample_flags 1 true) sample_manager sample_container)
    as [st| |] eqn:Hrun; [|vm_compute in Hrun; discriminate..].
  exists st. split; [reflexivity|].
  destruct (multi_thread_dispatch_by_bucket sample_Evaluate sample_EvaluateEnv
              sample_GetName (sample_flags 1 true) sample_manager sample_container st
              eq_refl Hrun) as [Hperm _].
  exact Hperm.
Defined.

Lemma single_thread_dispatch_in_order_witness :
  ∃ st, Run_dispatch sample_Evaluate sample_EvaluateEnv sample_GetName
          (sample_flags 1 false) sample_manager sample_container = Ok st
        ∧ d_obstacle <$> st.2 = [1; 2; 3; 4].
Proof.
  destruct (Run_dispatch sample_Evaluate sample_EvaluateEnv sample_GetName
              (sample_flags 1 false) sample_manager sample_container)
    as [st| |] eqn:Hrun; [|vm_compute in Hrun; discriminate..].
  exists st. split; [reflexivity|].
  destruct (single_thread_dispatch_in_order sample_Evaluate sample_EvaluateEnv
              sample_GetName (sample_flags 1 false) sample_manager sample_container st
              eq_refl) as [Horder _].
  - apply (bool_decide_unpack _). vm_compute. exact I.
  - exact Hrun.
  - exact Horder.
Defined.

Lemma sample_manager_registered (t : EvaluatorType) :
  is_Some (GetEvaluator sample_manager t).
Proof. destruct t; vm_compute; by eexists. Defined.

Lemma Run_completes_witness :
  (∃ out, Run sample_Evaluate sample_EvaluateEnv sample_GetName 4
            (mkFlags (-1) 4 1 true true 0) (mkVehicleParam 5 2)
            (registered_containers sample_container) sample_manager = Ok out)
  ∧ Run sample_Evaluate sample_EvaluateEnv sample_GetName 4
      (mkFlags (-1) 4 1 true true 0) (mkVehicleParam 5 2)
      (no_pose_containers sample_container) sample_manager = Fatal.
Proof.
  split.
  - apply (Run_completes sample_Evaluate sample_EvaluateEnv sample_GetName 4
             (mkFlags (-1) 4 1 true true 0) (mkVehicleParam 5 2)
             (registered_containers sample_container) sample_manager).
    + exact sample_manager_registered.
    + intros _. unfold slots_ok, int_max. simpl. lia.
    + eexists. reflexivity.
    + intros _. eexists. reflexivity.
  - apply (Run_completes sample_Evaluate sample_EvaluateEnv sample_GetName 4
             (mkFlags (-1) 4 1 true true 0) (mkVehicleParam 5 2)
             (no_pose_containers sample_container) sample_manager).
    intros [_ Hpose]. destruct Hpose as [pose Hpose]; [left; reflexivity|].
    discriminate Hpose.
Defined.

Lemma Run_frame_dump_only_witness :
  ∃ out, Run sample_Evaluate sample_EvaluateEnv sample_GetName 4
           (mkFlags (-1) 0 0 true false 4) (mkVehicleParam 5 2)
           (registered_containers sample_container) unregistered_manager = Ok out
         ∧ out_dispatched out = [] ∧ out_semantic_map out = None.
Proof.
  destruct (Run_frame_dump_only sample_Evaluate sample_EvaluateEnv sample_GetName 4
              (mkFlags (-1) 0 0 true false 4) (mkVehicleParam 5 2)
              (registered_containers sample_container) sample_container
              mkPoseContainer unregistered_manager) as (m' & _ & Hrun).
  - reflexivity.
  - reflexivity.
  - reflexivity.
  - eexists. split; [exact Hrun|]. split; reflexivity.
Defined.

Lemma modes_dispatch_same_obstacles_witness :
  ∃ st1 st2,
    Run_dispatch sample_Evaluate sample_EvaluateEnv sample_GetName
      (sample_flags 1 true) sample_manager moving_container = Ok st1
    ∧ Run_dispatch sample_Evaluate sample_EvaluateEnv sample_GetName
        (sample_flags 1 false) sample_manager moving_container = Ok st2
    ∧ ∀ p, p ∈ d_obstacle <$> st1.2 <-> p ∈ d_obstacle <$> st2.2.
Proof.
  destruct (Run_dispatch sample_Evaluate sample_EvaluateEnv sample_GetName
              (sample_flags 1 true) sample_manager moving_container)
    as [st1| |] eqn:Hrun1; [|vm_compute in Hrun1; discriminate..].
  destruct (Run_dispatch sample_Evaluate sample_EvaluateEnv sample_GetName
              (sample_flags 1 false) sample_manager moving_container)
    as [st2| |] eqn:Hrun2; [|vm_compute in Hrun2; discriminate..].
  exists st1, st2. split; [reflexivity|]. split; [reflexivity|].
  apply (modes_dispatch_same_obstacles sample_Evaluate sample_EvaluateEnv
           sample_GetName (sample_flags 1 true) (sample_flags 1 false)
           sample_manager moving_container st1 st2); try reflexivity;
    try assumption.
  - apply (bool_decide_unpack _). vm_compute. exact I.
  - intros id Hid. apply list_elem_of_In in Hid. simpl in Hid. lia.
  - intros id o Hid Ho _. apply list_elem_of_In in Hid. simpl in Hid.
    destruct Hid as [<-|[<-|[<-|[]]]]; vm_compute in Ho;
      injection Ho as <-; discriminate.
Defined.

(** ** The records of the snapshot *)

(** X18.  The builder ends the process when the obstacles container or the
    pose container is not registered.  With both registered it returns, and
    the history map it leaves starts empty and is determined by the obstacles
    container alone: the record of an id holds, once per occurrence of the
    id among the movable ids followed by the ego id, the frames of the first
    ten features of its obstacle, in the order of the features, and its flag
    is [IsTrainable] of the latest feature; an id that is not walked, or
    whose obstacle is absent or has no feature, has no record. *)
Theorem history_record_exact (flags : Flags) (vehicle_param : VehicleParam)
    (containers : ContainerManager) (m : EvaluatorManager) :
  match GetContainer_PERCEPTION_OBSTACLES containers,
        GetContainer_LOCALIZATION containers with
  | Some c, Some _ =>
    ∃ m', BuildObstacleIdHistoryMap flags vehicle_param containers m = Ok m'
      ∧ ∀ id,
          obstacle_id_history_map_ m' !! id
          = match GetObstacle c id with
            | Some o =>
              if (history_size o =? 0)%nat then None
              else match count_occ Z.eq_dec (history_ids flags c) id with
                   | O => None
                   | S n =>
                     Some (ObstacleHistory.mk
                             (mjoin (replicate (S n) (frames_of flags vehicle_param o)))
                             (IsTrainable flags (latest_feature o)))
                   end
            | None => None
            end
  | _, _ => BuildObstacleIdHistoryMap flags vehicle_param containers m = Fatal
  end.
Proof.
  destruct (GetContainer_PERCEPTION_OBSTACLES containers) as [c|] eqn:Hc;
    [|apply BuildObstacleIdHistoryMap_Fatal; by left].
  destruct (GetContainer_LOCALIZATION containers) as [pose|] eqn:Hp;
    [|apply BuildObstacleIdHistoryMap_Fatal; by right].
  exact (history_record_exact_parts flags vehicle_param containers c pose m Hc Hp).
Qed.

(** X19.  With both containers registered, an id has a record in the
    history map exactly when it is one of the movable ids or the ego id and
    the container holds an obstacle for it with at least one feature; the
    record then holds at least one frame. *)
Theorem history_record_exists_iff (flags : Flags) (vehicle_param : VehicleParam)
    (containers : ContainerManager) (c : ObstaclesContainer)
    (ego_pose_container : PoseContainer) (m : EvaluatorManager) (id : Z) :
  GetContainer_PERCEPTION_OBSTACLES containers = Some c ->
  GetContainer_LOCALIZATION containers = Some ego_pose_container ->
  ∃ m', BuildObstacleIdHistoryMap flags vehicle_param containers m = Ok m'
    ∧ (is_Some (obstacle_id_history_map_ m' !! id)
       <-> id ∈ history_ids flags c
           ∧ ∃ o, GetObstacle c id = Some o ∧ history_size o ≠ 0%nat)
    ∧ ∀ r, obstacle_id_history_map_ m' !! id = Some r -> ObstacleHistory.feature r ≠ [].
Proof.
  intros Hc Hp.
  destruct (history_record_exact_parts flags vehicle_param containers c
              ego_pose_container m Hc Hp) as (m' & Hm' & Hrec).
  exists m'. split; [done|]. specialize (Hrec id).
  assert (∀ o, history_size o ≠ 0%nat -> frames_of flags vehicle_param o ≠ []) as Hframes.
  { intros o Hne. unfold frames_of, history_size in *.
    destruct (feature_history o); [done|]. done. }
  destruct (GetObstacle c id) as [o|] eqn:Ho.
  - destruct (Nat.eqb_spec (history_size o) 0) as [Hz|Hne].
    + rewrite Hrec. split; [|done]. split; [by intros [? ?]|].
      intros (_ & o' & [= <-] & ?). done.
    + destruct (count_occ Z.eq_dec (history_ids flags c) id) as [|n] eqn:Hcount.
      * rewrite Hrec. split; [|done]. split; [by intros [? ?]|].
        intros (Hin & _). apply list_elem_of_In in Hin.
        apply (count_occ_In Z.eq_dec) in Hin. lia.
      * rewrite Hrec. split.
        -- split; [|by eexists]. intros _. split; [|by exists o].
           apply list_elem_of_In, (count_occ_In Z.eq_dec). lia.
        -- intros r [= <-]. cbn [ObstacleHistory.feature replicate mjoin list_join].
           specialize (Hframes o Hne).
           destruct (frames_of flags vehicle_param o); done.
  - rewrite Hrec. split; [|done]. split; [by intros [? ?]|].
    by intros (_ & o' & ? & _).
Qed.

Lemma history_frame_fields flags vp g :
  let f := history_frame flags vp g in
  Feature.id f = Feature.id g
  ∧ Feature.timestamp f = Feature.timestamp g
  ∧ Feature.position f = Feature.position g
  ∧ Feature.theta f = Feature.velocity_heading g
  ∧ (Feature.id g ≠ FLAGS_ego_vehicle_id flags ->
       Feature.polygon_point f = Feature.polygon_point g
       ∧ Feature.length f = Feature.length g
       ∧ Feature.width f = Feature.width g)
  ∧ (Feature.id g = FLAGS_ego_vehicle_id flags ->
       Feature.polygon_point f = []
       ∧ Feature.length f = vehicle_length vp
       ∧ Feature.width f = vehicle_width vp).
Proof.
  unfold history_frame.
  destruct (decide (Feature.id g ≠ FLAGS_ego_vehicle_id flags)); simpl;
    repeat split; try done; intros; done.
Qed.

(** X20.  With both containers registered, every frame stored in the
    history map comes from one of the first ten features of the obstacle of
    its record: it carries the id, timestamp
    and position of that feature and its velocity heading as heading; when
    the id of the feature is not the ego id it carries the polygon, length
    and width of the feature, and when it is the ego id it carries no polygon
    and the length and width of the vehicle configuration. *)
Theorem stored_frames_shape (flags : Flags) (vehicle_param : VehicleParam)
    (containers : ContainerManager) (c : ObstaclesContainer)
    (ego_pose_container : PoseContainer) (m : EvaluatorManager) :
  GetContainer_PERCEPTION_OBSTACLES containers = Some c ->
  GetContainer_LOCALIZATION containers = Some ego_pose_container ->
  ∃ m', BuildObstacleIdHistoryMap flags vehicle_param containers m = Ok m'
    ∧ ∀ id r f,
        obstacle_id_history_map_ m' !! id = Some r ->
        f ∈ ObstacleHistory.feature r ->
        ∃ o g, GetObstacle c id = Some o
          ∧ g ∈ take 10 (feature_history o)
          ∧ Feature.id f = Feature.id g
          ∧ Feature.timestamp f = Feature.timestamp g
          ∧ Feature.position f = Feature.position g
          ∧ Feature.theta f = Feature.velocity_heading g
          ∧ (Feature.id g ≠ FLAGS_ego_vehicle_id flags ->
               Feature.polygon_point f = Feature.polygon_point g
               ∧ Feature.length f = Feature.length g
               ∧ Feature.width f = Feature.width g)
          ∧ (Feature.id g = FLAGS_ego_vehicle_id flags ->
               Feature.polygon_point f = []
               ∧ Feature.length f = vehicle_length vehicle_param
               ∧ Feature.width f = vehicle_width vehicle_param).
Proof.
  intros Hc Hp.
  destruct (history_record_exact_parts flags vehicle_param containers c
              ego_pose_container m Hc Hp) as (m' & Hm' & Hrec).
  exists m'. split; [done|]. intros id r f Hr Hf. rewrite Hrec in Hr.
  destruct (GetObstacle c id) as [o|]; [|done].
  destruct (history_size o =? 0)%nat; [done|].
  destruct (count_occ Z.eq_dec (history_ids flags c) id) as [|n]; [done|].
  injection Hr as <-. cbn [ObstacleHistory.feature] in Hf.
  change (f ∈ mjoin (replicate (S n) (frames_of flags vehicle_param o))) in Hf.
  apply list_elem_of_join in Hf as (fs & Hf & Hfs).
  apply elem_of_replicate in Hfs as [-> _].
  unfold frames_of in Hf. apply list_elem_of_In, in_map_iff in Hf as (g & <- & Hg).
  apply list_elem_of_In in Hg. exists o, g. split; [done|]. split; [done|].
  apply history_frame_fields.
Qed.

(** ** The frame environment *)

Lemma Dump_fold_others (ego : Z) (l : list (Z * ObstacleHistory.t)) : ∀ env,
  FrameEnv.timestamp (foldl (dump_step ego) env l) = FrameEnv.timestamp env
  ∧ FrameEnv.obstacles_history (foldl (dump_step ego) env l)
    = FrameEnv.obstacles_history env ++ (filter (fun pr => pr.1 ≠ ego) l).*2
  ∧ (is_Some (FrameEnv.ego_history env) ∨ ego ∈ l.*1 ->
     is_Some (FrameEnv.ego_history (foldl (dump_step ego) env l))).
Proof.
  induction l as [|[id r] l IH]; intros env.
  - split; [done|]. split; [by rewrite app_nil_r|].
    intros [?|Hin]; [done|]. by apply elem_of_nil in Hin.
  - cbn [foldl]. destruct (IH (dump_step ego env (id, r))) as (Ht & Ho & He).
    rewrite Ht, Ho. rewrite filter_cons. unfold dump_step at 1 2. cbn [fst snd].
    destruct (decide (id ≠ ego)) as [Hne|Heq]; cbn.
    + split; [done|]. split; [by rewrite <- app_assoc|].
      intros [?|Hin]; apply He; unfold dump_step; cbn [fst snd].
      * rewrite decide_True by done. by left.
      * apply elem_of_cons in Hin as [->|Hin]; [done|]. by right.
    + split; [done|]. split; [done|].
      intros _. apply He. unfold dump_step. cbn [fst snd].
      rewrite decide_False by done. left. by eexists.
Qed.

Lemma DumpCurrentFrameEnv_fold flags c m :
  DumpCurrentFrameEnv flags c m
  = foldl (dump_step (FLAGS_ego_vehicle_id flags))
      (FrameEnv.mk (Some (container_timestamp c)) [] None)
      (map_to_list (obstacle_id_history_map_ m)).
Proof. reflexivity. Qed.

(** X21.  The frame environment handed to the sink carries the timestamp of
    the container, has as ego history the record stored under the ego id
    when there is one, and as other histories the records stored under all
    the other ids, each once; no record of the map is left out and none is
    added. *)
Theorem frame_env_partitions_records (flags : Flags) (c : ObstaclesContainer)
    (m : EvaluatorManager) :
  FrameEnv.timestamp (DumpCurrentFrameEnv flags c m) = Some (container_timestamp c)
  ∧ FrameEnv.ego_history (DumpCurrentFrameEnv flags c m)
    = obstacle_id_history_map_ m !! FLAGS_ego_vehicle_id flags
  ∧ FrameEnv.obstacles_history (DumpCurrentFrameEnv flags c m)
    = (filter (fun pr => pr.1 ≠ FLAGS_ego_vehicle_id flags)
         (map_to_list (obstacle_id_history_map_ m))).*2.
Proof.
  destruct (DumpCurrentFrameEnv_records flags c m) as [Hego _].
  rewrite DumpCurrentFrameEnv_fold in *.
  destruct (Dump_fold_others (FLAGS_ego_vehicle_id flags)
              (map_to_list (obstacle_id_history_map_ m))
              (FrameEnv.mk (Some (container_timestamp c)) [] None)) as (Ht & Ho & He).
  split; [exact Ht|]. split; [|exact Ho].
  destruct (obstacle_id_history_map_ m !! FLAGS_ego_vehicle_id flags) as [r|] eqn:Hr.
  - destruct He as [r' Hr'].
    + right. apply list_elem_of_fmap. exists (FLAGS_ego_vehicle_id flags, r).
      split; [done|]. by apply elem_of_map_to_list.
    + rewrite Hr'. f_equal. apply Hego in Hr'. congruence.
  - match goal with
    | |- ?x = None => destruct x as [r|]; [|done]
    end.
    specialize (Hego r eq_refl). congruence.
Qed.

Lemma history_record_exists_iff_witness :
  ∃ m', BuildObstacleIdHistoryMap (sample_flags 1 true) (mkVehicleParam 5 2)
          (registered_containers sample_container) sample_manager = Ok m'
    ∧ is_Some (obstacle_id_history_map_ m' !! 2).
Proof.
  destruct (history_record_exists_iff (sample_flags 1 true) (mkVehicleParam 5 2)
              (registered_containers sample_container) sample_container
              mkPoseContainer sample_manager 2) as (m' & Hm' & Hiff & _).
  - reflexivity.
  - reflexivity.
  - exists m'. split; [exact Hm'|]. apply Hiff. split.
    + apply (bool_decide_unpack _). vm_compute. exact I.
    + exists (sample_obstacle 2 NORMAL VEHICLE false true false 12).
      split; [reflexivity | discriminate].
Defined.

Lemma stored_frames_shape_witness :
  ∃ m', BuildObstacleIdHistoryMap (sample_flags 1 true) (mkVehicleParam 5 2)
          (registered_containers sample_container) sample_manager = Ok m'
    ∧ ∀ id r f,
        obstacle_id_history_map_ m' !! id = Some r ->
        f ∈ ObstacleHistory.feature r ->
        ∃ o g, GetObstacle sample_container id = Some o
          ∧ g ∈ take 10 (feature_history o)
          ∧ Feature.id f = Feature.id g
          ∧ Feature.theta f = Feature.velocity_heading g.
Proof.
  destruct (stored_frames_shape (sample_flags 1 true) (mkVehicleParam 5 2)
              (registered_containers sample_container) sample_container
              mkPoseContainer sample_manager) as (m' & Hm' & Hall).
  - reflexivity.
  - reflexivity.
  - exists m'. split; [exact Hm'|]. intros id r f Hr Hf.
    destruct (Hall id r f Hr Hf) as (o & g & Ho & Hg & Hid & _ & _ & Htheta & _).
    exists o, g. split; [exact Ho|]. split; [exact Hg|]. split; [exact Hid|exact Htheta].
Defined.

Lemma neighbours_matter_for_lane_scanning_only_witness :
  EvaluateObstacle sample_Evaluate sample_EvaluateEnv sample_GetName sample_manager
    (sample_obstacle 1 CAUTION VEHICLE true false false 3) [7; 8]
  = EvaluateObstacle_1 sample_Evaluate sample_EvaluateEnv sample_GetName sample_manager
      (sample_obstacle 1 CAUTION VEHICLE true false false 3).
Proof.
  apply (neighbours_matter_for_lane_scanning_only sample_Evaluate sample_EvaluateEnv
           sample_GetName sample_manager
           (sample_obstacle 1 CAUTION VEHICLE true false false 3) [7; 8]).
  intros e _ _ _ He. vm_compute in He. injection He as <-. discriminate.
Defined.

(** ** What a cycle hands to the evaluators *)

Section CycleCalls.

Variable Evaluate : Evaluator -> Obstacle -> Obstacle * bool.
Variable EvaluateEnv : Evaluator -> Obstacle -> list ObstaclePtr -> Obstacle * bool.
Variable GetName : Evaluator -> string.

Lemma evaluate_ptr_from_dispatch m worker (st st' : RunState) p :
  evaluate_ptr Evaluate EvaluateEnv GetName m worker [] st p = Ok st' ->
  Forall (from_dispatch Evaluate EvaluateEnv GetName m) st.2 -> Forall (from_dispatch Evaluate EvaluateEnv GetName m) st'.2.
Proof.
  intros E Hst. apply evaluate_ptr_Ok in E as (o & o' & lg & _ & Hev & ->).
  cbn [snd]. apply Forall_app. split; [done|]. constructor; [|done]. by exists o, o'.
Qed.

Lemma Run_dispatch_from_dispatch flags m c (st : RunState) :
  Run_dispatch Evaluate EvaluateEnv GetName flags m c = Ok st ->
  Forall (from_dispatch Evaluate EvaluateEnv GetName m) st.2.
Proof.
  unfold Run_dispatch.
  assert (∀ w l (s s' : RunState),
            for_each (evaluate_ptr Evaluate EvaluateEnv GetName m w []) l s = Ok s' ->
            Forall (from_dispatch Evaluate EvaluateEnv GetName m) s.2 -> Forall (from_dispatch Evaluate EvaluateEnv GetName m) s'.2) as Hbucket.
  { intros w l. induction l as [|p l IH]; intros s s' Hrun Hs.
    - by injection Hrun as <-.
    - rewrite for_each_cons in Hrun.
      destruct (evaluate_ptr _ _ _ m w [] s p) as [s1| |] eqn:E; try done.
      rewrite bind_Ok in Hrun. apply (IH _ _ Hrun).
      by apply (evaluate_ptr_from_dispatch m w s s1 p). }
  destruct (FLAGS_enable_multi_thread flags).
  - destruct (group_all flags c _) as [idm| |]; try done. rewrite bind_Ok.
    unfold ForEach_buckets. generalize (map_to_list idm). intros bl.
    assert (∀ (s s' : RunState),
              for_each (run_bucket Evaluate EvaluateEnv GetName m []) bl s = Ok s' ->
              Forall (from_dispatch Evaluate EvaluateEnv GetName m) s.2 -> Forall (from_dispatch Evaluate EvaluateEnv GetName m) s'.2) as Hall.
    { induction bl as [|[b l] bl IH]; intros s s' Hrun Hs.
      - by injection Hrun as <-.
      - rewrite for_each_cons in Hrun.
        destruct (run_bucket _ _ _ m [] s (b, l)) as [s1| |] eqn:E; try done.
        rewrite bind_Ok in Hrun. apply (IH _ _ Hrun).
        unfold run_bucket in E. cbn [fst snd] in E. by apply (Hbucket _ _ _ _ E). }
    intros Hrun. apply (Hall _ _ Hrun). constructor.
  - generalize (curr_frame_considered_obstacle_ids c). intros ids.
    assert (∀ (s s' : RunState),
              for_each (run_single_body Evaluate EvaluateEnv GetName m []) ids s = Ok s' ->
              Forall (from_dispatch Evaluate EvaluateEnv GetName m) s.2 -> Forall (from_dispatch Evaluate EvaluateEnv GetName m) s'.2) as Hall.
    { induction ids as [|id ids IH]; intros s s' Hrun Hs.
      - by injection Hrun as <-.
      - rewrite for_each_cons, run_single_body_keeps in Hrun.
        destruct (single_thread_keeps _ id).
        + destruct (evaluate_ptr _ _ _ m None [] s id) as [s1| |] eqn:E; try done.
          rewrite bind_Ok in Hrun. apply (IH _ _ Hrun).
          by apply (evaluate_ptr_from_dispatch m None s s1 id).
        + rewrite bind_Ok in Hrun. by apply (IH _ _ Hrun). }
    intros Hrun. apply (Hall _ _ Hrun). constructor.
Qed.

(** X23.  In both modes, whatever a cycle dispatches: each dispatched
    obstacle got at most two evaluator calls, each made on a registered
    instance, and the only list of neighbours an evaluator is ever handed is
    the empty one. *)
Theorem Run_calls_bounded_without_neighbours (flags : Flags) (m : EvaluatorManager)
    (c : ObstaclesContainer) (st : RunState) :
  Run_dispatch Evaluate EvaluateEnv GetName flags m c = Ok st ->
  ∀ d, d ∈ st.2 ->
    (List.length (d_invocations d) <= 2)%nat
    ∧ ∀ i, i ∈ d_invocations d ->
        (∃ t, GetEvaluator m t = Some (inv_evaluator i))
        ∧ (inv_dynamic_env i = None ∨ inv_dynamic_env i = Some []).
Proof.
  intros Hrun d Hd. apply Run_dispatch_from_dispatch in Hrun.
  eapply Forall_forall in Hrun as (o & o' & Hev); [|exact Hd].
  destruct (dispatch_log_parts Evaluate EvaluateEnv GetName m o o' [] _ Hev)
    as (Hlen & Hreg & _ & Henv).
  split; [done|]. intros i Hi. split.
  - destruct (Hreg i Hi) as (t & _ & Ht). by exists t.
  - destruct (inv_dynamic_env i) as [env|] eqn:E; [|by left].
    right. destruct (Henv i env Hi E) as [-> _]. done.
Qed.

End CycleCalls.

Lemma Run_calls_bounded_without_neighbours_witness :
  ∃ st, Run_dispatch sample_Evaluate sample_EvaluateEnv sample_GetName
          (sample_flags 1 false) sample_manager sample_container = Ok st
        ∧ ∀ d, d ∈ st.2 -> (List.length (d_invocations d) <= 2)%nat.
Proof.
  destruct (Run_dispatch sample_Evaluate sample_EvaluateEnv sample_GetName
              (sample_flags 1 false) sample_manager sample_container)
    as [st| |] eqn:Hrun; [|vm_compute in Hrun; discriminate..].
  exists st. split; [reflexivity|]. intros d Hd.
  destruct (Run_calls_bounded_without_neighbours sample_Evaluate sample_EvaluateEnv
              sample_GetName (sample_flags 1 false) sample_manager sample_container
              st Hrun d Hd) as [Hlen _].
  exact Hlen.
Defined.
